(** * The interruption filter of the voice agent

    A shallow embedding of
    [livekit/agents/voice/transcription/interruption_filter.py]
    and the properties of [InterruptionFilter.should_interrupt].

    Character domain.  A Python [str] is a sequence of code points.  The
    development covers the strings whose code points are below 256 (the
    Latin-1 range, which contains ASCII): a character is an [ascii], read as
    the code point with that number, and a string is a [list ascii].  On this
    range [str.lower] maps one character to one character, and the tables of
    [str.isspace], [str.isalnum] and of the regular-expression classes [\s]
    and [\w] are written out in full below.

    Sets.  A [frozenset] has no order, but the program iterates over it
    ([for keyword in ...], [sorted(...)]); a set is therefore represented by
    the list of its elements in iteration order, and the theorems hold for
    every such order. *)

From Stdlib Require Import Ascii String List Bool Arith NArith Lia.
From Stdlib Require Import Permutation Sorted.
Import ListNotations.

Local Open Scope list_scope.

Definition text : Type := list ascii.

(** [str "yeah"] is the Python literal ["yeah"]. *)
Definition str (s : string) : text := list_ascii_of_string s.

Arguments str s%_string.

(** ** The error monad: [None] is a raised exception. *)

Definition bind {A B : Type} (m : option A) (k : A -> option B) : option B :=
  match m with
  | Some a => k a
  | None => None
  end.

Notation "x <- m ;; k" := (bind m (fun x => k))
  (at level 61, m at next level, right associativity).

(** ** Python built-ins on [str] *)

Module Py.

Definition code (c : ascii) : N := N_of_ascii c.

Definition between (lo hi : N) (c : ascii) : bool :=
  (N.leb lo (code c) && N.leb (code c) hi)%bool.

Definition code_is (n : N) (c : ascii) : bool := N.eqb (code c) n.

(** [str.isspace] on one character: TAB..CR, FS..US, SPACE, NEL, NBSP. *)
Definition isspace (c : ascii) : bool :=
  between 9 13 c || between 28 32 c || code_is 133 c || code_is 160 c.

(** [str.isalnum] on one character: digits, ASCII letters, and the Latin-1
    letters and numerics (feminine and masculine ordinal, superscript
    digits, micro sign, vulgar fractions, the accented letters without the
    multiplication and division signs). *)
Definition isalnum (c : ascii) : bool :=
  between 48 57 c || between 65 90 c || between 97 122 c
  || code_is 170 c || between 178 179 c || code_is 181 c || between 185 186 c
  || between 188 190 c || between 192 214 c || between 216 246 c
  || between 248 255 c.

(** [str.lower] on one character: A..Z and the accented capitals move up
    by 32; every other character is kept. *)
Definition lower_char (c : ascii) : ascii :=
  if between 65 90 c || between 192 214 c || between 216 222 c
  then ascii_of_N (code c + 32)
  else c.

(** [text.lower()] *)
Definition lower (s : text) : text := map lower_char s.

(** [text.split()]: the maximal runs of non-whitespace characters. *)
Fixpoint split (s : text) : list text :=
  match s with
  | [] => []
  | c :: s' =>
      if isspace c then split s'
      else match s' with
           | [] => [[c]]
           | d :: _ =>
               if isspace d then [c] :: split s'
               else match split s' with
                    | w :: ws => (c :: w) :: ws
                    | [] => [[c]]
                    end
           end
  end.

(** [sep.join(parts)] *)
Fixpoint join (sep : text) (parts : list text) : text :=
  match parts with
  | [] => []
  | [p] => p
  | p :: ps => p ++ sep ++ join sep ps
  end.

Fixpoint lstrip (s : text) : text :=
  match s with
  | [] => []
  | c :: s' => if isspace c then lstrip s' else s
  end.

Definition rstrip (s : text) : text := rev (lstrip (rev s)).

(** [text.strip()] *)
Definition strip (s : text) : text := rstrip (lstrip s).

Definition eqb (a b : text) : bool :=
  if list_eq_dec ascii_dec a b then true else false.

Fixpoint startswith (s p : text) {struct p} : bool :=
  match p, s with
  | [], _ => true
  | _ :: _, [] => false
  | a :: p', b :: s' => Ascii.eqb a b && startswith s' p'
  end.

(** [sub in s] on strings: [sub] occurs somewhere in [s]. *)
Fixpoint contains (sub s : text) : bool :=
  startswith s sub ||
  match s with
  | [] => false
  | _ :: s' => contains sub s'
  end.

(** [w in words] on a set of strings. *)
Definition mem (w : text) (words : list text) : bool := existsb (eqb w) words.

(** Truth value of a string: [not s] is [negb (truthy s)]. *)
Definition truthy (s : text) : bool :=
  match s with
  | [] => false
  | _ :: _ => true
  end.

Fixpoint insert_desc {A : Type} (key : A -> nat) (x : A) (l : list A) : list A :=
  match l with
  | [] => [x]
  | y :: l' => if key x <? key y then y :: insert_desc key x l' else x :: l
  end.

(** [sorted(l, key=key, reverse=True)]: descending by key and stable
    (elements with equal keys keep the order they have in [l]). *)
Fixpoint sorted_reverse {A : Type} (key : A -> nat) (l : list A) : list A :=
  match l with
  | [] => []
  | x :: l' => insert_desc key x (sorted_reverse key l')
  end.

End Py.

(** ** The fragment of [re] the program uses

    Every pattern the program builds at run time is
    [r"\b" + re.escape(w) + r"\b"].  [compile] parses the pattern syntax
    made of [\b], escaped characters and ordinary characters; on anything
    else (an operator, a class, a letter or digit escape other than [\b], a
    trailing backslash) it answers [None], which stands for [re.error] or
    for a pattern outside this fragment. *)

Module Re.

Inductive item : Type :=
| Boundary
| Lit (c : ascii).

Definition pattern : Type := list item.

(** The characters [re.escape] puts a backslash before:
    [()[]{}?*+-|^$\.&~#] and the whitespace [" \t\n\r\v\f"]. *)
Definition special (c : ascii) : bool :=
  Py.between 9 13 c || Py.code_is 32 c || Py.between 35 36 c
  || Py.code_is 38 c || Py.between 40 43 c || Py.between 45 46 c
  || Py.code_is 63 c || Py.between 91 94 c || Py.between 123 126 c.

(** [re.escape(s)] *)
Fixpoint escape (s : text) : text :=
  match s with
  | [] => []
  | c :: s' => if special c then "\"%char :: c :: escape s' else c :: escape s'
  end.

(** The operators of the pattern syntax: [.^$*+?{}[]|()]. *)
Definition meta (c : ascii) : bool :=
  Py.code_is 46 c || Py.code_is 94 c || Py.code_is 36 c || Py.between 42 43 c
  || Py.code_is 63 c || Py.code_is 123 c || Py.code_is 125 c
  || Py.code_is 91 c || Py.code_is 93 c || Py.code_is 124 c
  || Py.between 40 41 c.

Definition ascii_alnum (c : ascii) : bool :=
  Py.between 48 57 c || Py.between 65 90 c || Py.between 97 122 c.

(** [re.compile(p)] on the fragment. *)
Fixpoint compile (p : text) : option pattern :=
  match p with
  | [] => Some []
  | c :: p' =>
      if Ascii.eqb c "\" then
        match p' with
        | [] => None
        | e :: p'' =>
            if Ascii.eqb e "b" then
              items <- compile p'' ;; Some (Boundary :: items)
            else if ascii_alnum e then None
            else items <- compile p'' ;; Some (Lit e :: items)
        end
      else if meta c then None
      else items <- compile p' ;; Some (Lit c :: items)
  end.

Definition isword (c : ascii) : bool := Py.isalnum c || Ascii.eqb c "_".

Definition isword_at (c : option ascii) : bool :=
  match c with
  | Some a => isword a
  | None => false
  end.

(** [\b] between the character before the position and the one after it:
    exactly one of the two is a word character (the edges of the string
    count as non-word). *)
Definition at_boundary (prev next : option ascii) : bool :=
  xorb (isword_at prev) (isword_at next).

(** Match a pattern at the start of [s], [prev] being the character before
    it; the answer is the length of the match.  The fragment has neither
    alternation nor repetition, so a position has at most one match. *)
Fixpoint match_here (p : pattern) (prev : option ascii) (s : text) : option nat :=
  match p with
  | [] => Some 0
  | Boundary :: p' =>
      if at_boundary prev (hd_error s) then match_here p' prev s else None
  | Lit c :: p' =>
      match s with
      | [] => None
      | d :: s' =>
          if Ascii.eqb c d then option_map S (match_here p' (Some d) s') else None
      end
  end.

Fixpoint search_from (p : pattern) (prev : option ascii) (s : text) : bool :=
  match match_here p prev s with
  | Some _ => true
  | None =>
      match s with
      | [] => false
      | c :: s' => search_from p (Some c) s'
      end
  end.

(** [re.search(p, s)] as a truth value. *)
Definition search (p : pattern) (s : text) : bool := search_from p None s.

(** [skip] characters are still inside the match found last. *)
Fixpoint sub_from (p : pattern) (repl : text) (prev : option ascii)
  (skip : nat) (s : text) : text :=
  match skip with
  | S k =>
      match s with
      | [] => []
      | c :: s' => sub_from p repl (Some c) k s'
      end
  | 0 =>
      match match_here p prev s with
      | Some (S k) =>
          repl ++ match s with
                  | [] => []
                  | c :: s' => sub_from p repl (Some c) k s'
                  end
      | Some 0 =>
          repl ++ match s with
                  | [] => []
                  | c :: s' => c :: sub_from p repl (Some c) 0 s'
                  end
      | None =>
          match s with
          | [] => []
          | c :: s' => c :: sub_from p repl (Some c) 0 s'
          end
      end
  end.

(** [re.sub(p, repl, s)]: the matches are found from left to right, they do
    not overlap, and each is replaced by [repl]. *)
Definition sub (p : pattern) (repl : text) (s : text) : text :=
  sub_from p repl None 0 s.

(** [re.sub(r"[^...]", repl, s)] for a negated character class, [keep]
    being the class: every character outside the class is replaced. *)
Fixpoint sub_outside (keep : ascii -> bool) (repl : text) (s : text) : text :=
  match s with
  | [] => []
  | c :: s' =>
      if keep c then c :: sub_outside keep repl s'
      else repl ++ sub_outside keep repl s'
  end.

(** The class [\w\s-]. *)
Definition word_space_hyphen (c : ascii) : bool :=
  isword c || Py.isspace c || Ascii.eqb c "-".

End Re.

(** ** The filter *)

(** [DEFAULT_IGNORE_WORDS], in the order of the source's list literal. *)
Definition DEFAULT_IGNORE_WORDS : list text :=
  map str
    [ "yeah"; "yes"; "yep"; "yup"; "ya"; "ok"; "okay"; "hmm"; "hm"; "mhm";
      "uh-huh"; "uh huh"; "uhuh"; "right"; "aha"; "ah"; "oh"; "i see";
      "sure"; "got it"; "gotcha"; "alright"; "cool"; "nice"; "great";
      "good"; "fine"; "true"; "indeed"; "absolutely"; "exactly";
      "certainly"; "definitely"; "of course"; "mm"; "mmm"; "mmhmm";
      "mm-hmm" ]%string.

(** [DEFAULT_INTERRUPT_KEYWORDS], in the order of the source's list literal. *)
Definition DEFAULT_INTERRUPT_KEYWORDS : list text :=
  map str
    [ "stop"; "wait"; "hold on"; "hold up"; "pause"; "no"; "nope";
      "actually"; "but"; "however"; "excuse me"; "sorry"; "hang on";
      "one moment"; "one second"; "just a moment"; "just a second";
      "let me"; "i have"; "i need"; "i want"; "can you"; "could you";
      "would you"; "what about"; "what if"; "how about"; "listen"; "hey";
      "hello"; "hi"; "question"; "wait a minute"; "wait a second"; "not";
      "never"; "don't"; "can't"; "won't" ]%string.

Record InterruptionFilterConfig : Type := {
  ignore_words : list text;
  interrupt_keywords : list text;
  enabled : bool
}.

(** [InterruptionFilterConfig()] *)
Definition default_config : InterruptionFilterConfig :=
  {| ignore_words := DEFAULT_IGNORE_WORDS;
     interrupt_keywords := DEFAULT_INTERRUPT_KEYWORDS;
     enabled := true |}.

(** [" ".join(text.lower().split())] *)
Definition _normalize_text (t : text) : text :=
  Py.join (str " ") (Py.split (Py.lower t)).

(** [r"\b" + re.escape(w) + r"\b"] *)
Definition word_pattern (w : text) : text :=
  str "\b" ++ Re.escape w ++ str "\b".

(** The loop of [_contains_interrupt_keyword] over the keywords. *)
Fixpoint contains_keyword_loop (keywords : list text) (normalized_text : text)
  : option bool :=
  match keywords with
  | [] => Some false
  | keyword :: rest =>
      if Py.contains (str " ") keyword then
        if Py.contains keyword normalized_text then Some true
        else contains_keyword_loop rest normalized_text
      else
        pattern <- Re.compile (word_pattern keyword) ;;
        if Re.search pattern normalized_text then Some true
        else contains_keyword_loop rest normalized_text
  end.

Definition _contains_interrupt_keyword (cfg : InterruptionFilterConfig)
  (normalized_text : text) : option bool :=
  contains_keyword_loop (interrupt_keywords cfg) normalized_text.

(** [sorted([w for w in ignore_words if " " in w], key=len, reverse=True)] *)
Definition phrase_patterns (cfg : InterruptionFilterConfig) : list text :=
  Py.sorted_reverse (@List.length ascii)
    (filter (Py.contains (str " ")) (ignore_words cfg)).

(** The loop of [_is_only_ignore_words] over the phrases. *)
Fixpoint remove_phrases_loop (phrases : list text) (remaining : text)
  : option text :=
  match phrases with
  | [] => Some remaining
  | phrase :: rest =>
      pattern <- Re.compile (word_pattern phrase) ;;
      remove_phrases_loop rest (Re.sub pattern (str " ") remaining)
  end.

(** [re.sub(r"[^\w\s-]", "", word).strip()] *)
Definition clean_word (word : text) : text :=
  Py.strip (Re.sub_outside Re.word_space_hyphen [] word).

(** The loop of [_is_only_ignore_words] over the remaining words. *)
Fixpoint remaining_words_loop (ignore : list text) (remaining_words : list text)
  : bool :=
  match remaining_words with
  | [] => true
  | word :: rest =>
      if Py.truthy (clean_word word) && negb (Py.mem (clean_word word) ignore)
      then false
      else remaining_words_loop ignore rest
  end.

Definition _is_only_ignore_words (cfg : InterruptionFilterConfig)
  (normalized_text : text) : option bool :=
  remaining <- remove_phrases_loop (phrase_patterns cfg) normalized_text ;;
  match Py.split remaining with
  | [] => Some true
  | remaining_words => Some (remaining_words_loop (ignore_words cfg) remaining_words)
  end.

Definition should_interrupt (cfg : InterruptionFilterConfig) (transcript : text)
  (agent_is_speaking : bool) : option bool :=
  if negb (enabled cfg) then Some true
  else if negb agent_is_speaking then Some true
  else if negb (Py.truthy transcript) || negb (Py.truthy (Py.strip transcript))
  then Some false
  else
    let normalized := _normalize_text transcript in
    hit <- _contains_interrupt_keyword cfg normalized ;;
    if hit then Some true
    else
      only <- _is_only_ignore_words cfg normalized ;;
      if only then Some false else Some true.

(** ** The specification's vocabulary *)

(** A transcript that is empty or consists only of whitespace. *)
Definition whitespace_only (t : text) : Prop :=
  forall c, In c t -> Py.isspace c = true.

Definition ends_with_word (l : text) : Prop :=
  exists l' c, l = l' ++ [c] /\ Re.isword c = true.

Definition starts_with_word (r : text) : Prop :=
  exists c r', r = c :: r' /\ Re.isword c = true.

(** A word boundary lies between [l] and [r]: a word character on exactly
    one side. *)
Definition word_boundary (l r : text) : Prop :=
  (ends_with_word l /\ ~ starts_with_word r)
  \/ (~ ends_with_word l /\ starts_with_word r).

(** [w] occurs in [n] as a literal substring. *)
Definition occurs (w n : text) : Prop :=
  exists pre post, n = pre ++ w ++ post.

(** [w] occurs in [n] with a word boundary on each side. *)
Definition occurs_bounded (w n : text) : Prop :=
  exists pre post,
    n = pre ++ w ++ post
    /\ word_boundary pre (w ++ post)
    /\ word_boundary (pre ++ w) post.

(** The matching rule for an interrupt keyword. *)
Definition keyword_match (keyword n : text) : Prop :=
  (In " "%char keyword -> occurs keyword n)
  /\ (~ In " "%char keyword -> occurs_bounded keyword n).

(** The pattern of the word-boundary-delimited occurrences of [w]. *)
Definition bounded (w : text) : Re.pattern :=
  Re.Boundary :: map Re.Lit w ++ [Re.Boundary].

(** Every word-boundary-delimited occurrence of [phrase] replaced by a
    single space. *)
Definition remove_phrase (phrase remaining : text) : text :=
  Re.sub (bounded phrase) (str " ") remaining.

(** [w] occurs at the start of [s], a word boundary on each side, [before]
    being the text to the left of [s]. *)
Definition occurs_here (w before s : text) : Prop :=
  exists post,
    s = w ++ post
    /\ word_boundary before s
    /\ word_boundary (before ++ w) post.

(** The removal read from left to right: where the phrase occurs between
    word boundaries it gives way to one space and the reading resumes after
    it; any other character is kept. *)
Inductive removes (phrase : text) : text -> text -> text -> Prop :=
| removes_end (before : text) :
    removes phrase before [] []
| removes_keep (before : text) (c : ascii) (s r : text) :
    ~ occurs_here phrase before (c :: s) ->
    removes phrase (before ++ [c]) s r ->
    removes phrase before (c :: s) (c :: r)
| removes_hit (before post r : text) :
    occurs_here phrase before (phrase ++ post) ->
    removes phrase (before ++ phrase) post r ->
    removes phrase before (phrase ++ post) (" "%char :: r).

(** The multi-word ignore phrases, longest first. *)
Definition phrases_longest_first (cfg : InterruptionFilterConfig) : list text :=
  Py.sorted_reverse (@List.length ascii)
    (filter (fun w => if in_dec ascii_dec " "%char w then true else false)
       (ignore_words cfg)).

(** What is left of [n] once the ignore phrases are removed. *)
Definition after_phrases (cfg : InterruptionFilterConfig) (n : text) : text :=
  fold_left (fun remaining phrase => remove_phrase phrase remaining)
    (phrases_longest_first cfg) n.

(** The ignore-word-exhaustiveness check. *)
Definition ignore_exhausted (cfg : InterruptionFilterConfig) (n : text) : Prop :=
  Py.split (after_phrases cfg n) = []
  \/ Forall (fun token =>
               clean_word token <> [] -> In (clean_word token) (ignore_words cfg))
       (Py.split (after_phrases cfg n)).

(** A punctuation character: not alphanumeric, underscore, whitespace or
    hyphen. *)
Definition punctuation (c : ascii) : bool :=
  negb (Py.isalnum c || Ascii.eqb c "_" || Py.isspace c || Ascii.eqb c "-").

Fixpoint strip_leading (p : ascii -> bool) (s : text) : text :=
  match s with
  | [] => []
  | c :: s' => if p c then strip_leading p s' else s
  end.

(** Punctuation stripped from the two edges of a token only. *)
Definition strip_edges (s : text) : text :=
  rev (strip_leading punctuation (rev (strip_leading punctuation s))).

(** The ignore words as the specification lists them. *)
Definition SPEC_IGNORE_WORDS : list text :=
  map str
    [ "yeah"; "yes"; "yep"; "yup"; "ya"; "ok"; "okay"; "hmm"; "hm"; "mhm";
      "uh-huh"; "uh huh"; "uhuh"; "right"; "aha"; "ah"; "oh"; "i see";
      "sure"; "got it"; "gotcha"; "alright"; "cool"; "nice"; "great";
      "good"; "fine"; "true"; "indeed"; "absolutely"; "exactly";
      "certainly"; "definitely"; "of course"; "mm"; "mmm"; "mmhmm";
      "mm-hmm" ]%string.

(** The interrupt keywords as the specification lists them. *)
Definition SPEC_INTERRUPT_KEYWORDS : list text :=
  map str
    [ "stop"; "wait"; "hold on"; "hold up"; "pause"; "no"; "nope";
      "actually"; "but"; "however"; "excuse me"; "sorry"; "hang on";
      "one moment"; "one second"; "just a moment"; "just a second";
      "let me"; "i have"; "i need"; "i want"; "can you"; "could you";
      "would you"; "what about"; "what if"; "how about"; "listen"; "hey";
      "hello"; "hi"; "question"; "wait a minute"; "wait a second"; "not";
      "never"; "don't"; "can't"; "won't" ]%string.

(** The number of distinct elements: the cardinality of the set. *)
Definition cardinality (l : list text) : nat :=
  List.length (nodup (list_eq_dec ascii_dec) l).

(** Same elements, whatever the order: the same set. *)
Definition same_set (a b : list text) : Prop :=
  forall w, In w a <-> In w b.

(** The test the keyword loop makes on one keyword, its pattern compiled. *)
Definition keyword_hit (normalized_text keyword : text) : bool :=
  if Py.contains (str " ") keyword then Py.contains keyword normalized_text
  else Re.search (bounded keyword) normalized_text.

(** The character before a position: the last one of [l], or [prev] when
    [l] is empty. *)
Definition last_of (prev : option ascii) (l : text) : option ascii :=
  fold_left (fun _ c => Some c) l prev.

(** ** The filter object *)

(** [class InterruptionFilter]: the one attribute is [_config]. *)
Record InterruptionFilter : Type := {
  _config : InterruptionFilterConfig
}.

(** [InterruptionFilter(config)]: [config or InterruptionFilterConfig()].
    A dataclass instance is always true, so only [None] gives the
    defaults. *)
Definition __init__ (config : option InterruptionFilterConfig)
  : InterruptionFilter :=
  {| _config := match config with
                | Some c => c
                | None => default_config
                end |}.

(** The [config] property. *)
Definition config (self : InterruptionFilter) : InterruptionFilterConfig :=
  _config self.

(** [self._config = config] *)
Definition update_config (self : InterruptionFilter)
  (config : InterruptionFilterConfig) : InterruptionFilter :=
  {| _config := config |}.

(** [self.should_interrupt(transcript, agent_is_speaking=...)] *)
Definition ask (self : InterruptionFilter) (transcript : text)
  (agent_is_speaking : bool) : option bool :=
  should_interrupt (_config self) transcript agent_is_speaking.

(** [s.endswith(p)] *)
Definition endswith (s p : text) : bool := Py.startswith (rev s) (rev p).

(** The part of [w] before its first space. *)
Fixpoint first_word (w : text) : text :=
  match w with
  | [] => []
  | c :: w' => if Ascii.eqb c " " then [] else c :: first_word w'
  end.

(** The part of [w] after its first space. *)
Fixpoint after_space (w : text) : text :=
  match w with
  | [] => []
  | c :: w' => if Ascii.eqb c " " then w' else after_space w'
  end.


(** * Characters *)

Ltac each_char c := destruct c as [[] [] [] [] [] [] [] []].

Lemma special_plain (c : ascii) :
  Re.special c = false -> Ascii.eqb c "\" = false /\ Re.meta c = false.
Proof. each_char c; vm_compute; intros H; (discriminate H || (split; reflexivity)). Qed.

Lemma special_escaped (c : ascii) :
  Re.special c = true -> Ascii.eqb c "b" = false /\ Re.ascii_alnum c = false.
Proof. each_char c; vm_compute; intros H; (discriminate H || (split; reflexivity)). Qed.

Lemma isspace_lower (c : ascii) : Py.isspace (Py.lower_char c) = Py.isspace c.
Proof. each_char c; reflexivity. Qed.

Lemma isword_lower (c : ascii) : Re.isword (Py.lower_char c) = Re.isword c.
Proof. each_char c; reflexivity. Qed.

Lemma hyphen_lower (c : ascii) :
  Ascii.eqb (Py.lower_char c) "-" = Ascii.eqb c "-".
Proof. each_char c; reflexivity. Qed.

Lemma lower_char_idem (c : ascii) :
  Py.lower_char (Py.lower_char c) = Py.lower_char c.
Proof. each_char c; reflexivity. Qed.

(** * Patterns always compile *)

Lemma compile_escape (w rest : text) :
  Re.compile (Re.escape w ++ rest)
  = (items <- Re.compile rest ;; Some (map Re.Lit w ++ items)).
Proof.
  induction w as [|c w IH]; simpl.
  - destruct (Re.compile rest); reflexivity.
  - destruct (Re.special c) eqn:Hc.
    + destruct (special_escaped c Hc) as [Hb Ha].
      change (Re.compile (("\"%char :: c :: Re.escape w) ++ rest))
        with (if Ascii.eqb c "b"
              then items <- Re.compile (Re.escape w ++ rest) ;;
                   Some (Re.Boundary :: items)
              else if Re.ascii_alnum c then None
              else items <- Re.compile (Re.escape w ++ rest) ;;
                   Some (Re.Lit c :: items)).
      rewrite Hb, Ha, IH. destruct (Re.compile rest); reflexivity.
    + destruct (special_plain c Hc) as [Hb Hm].
      simpl. rewrite Hb, Hm, IH. destruct (Re.compile rest); reflexivity.
Qed.

Lemma compile_word_pattern (w : text) :
  Re.compile (word_pattern w) = Some (bounded w).
Proof.
  unfold word_pattern, bounded.
  change (str "\b" ++ Re.escape w ++ str "\b")
    with ("\"%char :: "b"%char :: (Re.escape w ++ str "\b")).
  change (Re.compile ("\"%char :: "b"%char :: (Re.escape w ++ str "\b")))
    with (items <- Re.compile (Re.escape w ++ str "\b") ;;
          Some (Re.Boundary :: items)).
  rewrite compile_escape. reflexivity.
Qed.

(** * The loops in closed form *)

Lemma contains_keyword_loop_eq (keywords : list text) (n : text) :
  contains_keyword_loop keywords n = Some (existsb (keyword_hit n) keywords).
Proof.
  induction keywords as [|k ks IH]; cbn [contains_keyword_loop existsb];
    [reflexivity|].
  unfold keyword_hit at 1.
  rewrite compile_word_pattern. cbn [bind].
  destruct (Py.contains (str " ") k).
  - destruct (Py.contains k n); [reflexivity | exact IH].
  - destruct (Re.search (bounded k) n); [reflexivity | exact IH].
Qed.

Lemma remove_phrases_loop_eq (phrases : list text) (remaining : text) :
  remove_phrases_loop phrases remaining
  = Some (fold_left (fun r phrase => remove_phrase phrase r) phrases remaining).
Proof.
  revert remaining.
  induction phrases as [|p ps IH]; intros remaining;
    cbn [remove_phrases_loop fold_left]; [reflexivity|].
  rewrite compile_word_pattern. cbn [bind]. apply IH.
Qed.

(** * Substrings *)

Lemma startswith_iff (s p : text) :
  Py.startswith s p = true <-> exists post, s = p ++ post.
Proof.
  revert s. induction p as [|a p IH]; intros s; simpl.
  - split; [intros _; exists s; reflexivity | reflexivity].
  - destruct s as [|b s].
    + split; [discriminate | intros [post H]; discriminate H].
    + rewrite andb_true_iff, Ascii.eqb_eq, IH. split.
      * intros [-> [post ->]]. exists post. reflexivity.
      * intros [post H]. injection H as -> ->. split; [reflexivity|].
        exists post. reflexivity.
Qed.

Lemma contains_iff (w s : text) : Py.contains w s = true <-> occurs w s.
Proof.
  unfold occurs. induction s as [|c s IH]; simpl.
  - rewrite orb_false_r, startswith_iff. split.
    + intros [post H]. exists [], post. exact H.
    + intros [pre [post H]]. destruct pre as [|x pre]; [|discriminate H].
      exists post. exact H.
  - rewrite orb_true_iff, startswith_iff, IH. split.
    + intros [[post H] | [pre [post H]]].
      * exists [], post. exact H.
      * exists (c :: pre), post. simpl. rewrite H. reflexivity.
    + intros [pre [post H]]. destruct pre as [|x pre].
      * left. exists post. exact H.
      * right. injection H as _ H. exists pre, post. exact H.
Qed.

Lemma contains_space_iff (w : text) :
  Py.contains (str " ") w = true <-> In " "%char w.
Proof.
  rewrite contains_iff. unfold occurs. split.
  - intros [pre [post ->]]. apply in_or_app. right. left. reflexivity.
  - intros H. destruct (in_split _ _ H) as [pre [post ->]].
    exists pre, post. reflexivity.
Qed.

Lemma phrase_patterns_eq (cfg : InterruptionFilterConfig) :
  phrase_patterns cfg = phrases_longest_first cfg.
Proof.
  unfold phrase_patterns, phrases_longest_first. f_equal.
  apply filter_ext. intros w.
  destruct (in_dec ascii_dec " "%char w) as [H | H].
  - apply contains_space_iff. exact H.
  - destruct (Py.contains (str " ") w) eqn:E; [|reflexivity].
    apply contains_space_iff in E. contradiction.
Qed.

Lemma is_only_ignore_words_eq (cfg : InterruptionFilterConfig) (n : text) :
  _is_only_ignore_words cfg n
  = Some (remaining_words_loop (ignore_words cfg)
            (Py.split (after_phrases cfg n))).
Proof.
  unfold _is_only_ignore_words.
  rewrite remove_phrases_loop_eq, phrase_patterns_eq. cbn [bind].
  fold (after_phrases cfg n).
  destruct (Py.split (after_phrases cfg n)); reflexivity.
Qed.

(** The decision once the agent speaks, the filter is on and the transcript
    has content. *)
Lemma should_interrupt_content (cfg : InterruptionFilterConfig) (t : text) :
  enabled cfg = true ->
  Py.truthy t = true ->
  Py.truthy (Py.strip t) = true ->
  should_interrupt cfg t true
  = Some (existsb (keyword_hit (_normalize_text t)) (interrupt_keywords cfg)
          || negb (remaining_words_loop (ignore_words cfg)
                     (Py.split (after_phrases cfg (_normalize_text t))))).
Proof.
  intros He Ht Hs. unfold should_interrupt, _contains_interrupt_keyword.
  rewrite He, Ht, Hs. cbn [negb orb].
  rewrite contains_keyword_loop_eq. cbn [bind].
  destruct (existsb _ _); [reflexivity|].
  rewrite is_only_ignore_words_eq. cbn [bind orb].
  destruct (remaining_words_loop _ _); reflexivity.
Qed.

Lemma should_interrupt_blank (cfg : InterruptionFilterConfig) (t : text) :
  enabled cfg = true ->
  Py.truthy t && Py.truthy (Py.strip t) = false ->
  should_interrupt cfg t true = Some false.
Proof.
  intros He Hb. unfold should_interrupt. rewrite He. cbn [negb].
  rewrite <- negb_andb, Hb. reflexivity.
Qed.

(** * Totality *)

(** C9. [should_interrupt] is total: for every transcript, both values of
    [agent_is_speaking] and every configuration (empty word sets included)
    it returns a boolean; no pattern it builds is ever refused by [re], so no
    exception is raised. *)
Theorem should_interrupt_total (cfg : InterruptionFilterConfig) (t : text)
  (agent_is_speaking : bool) :
  exists b, should_interrupt cfg t agent_is_speaking = Some b.
Proof.
  unfold should_interrupt, _contains_interrupt_keyword.
  destruct (negb (enabled cfg)); [eexists; reflexivity|].
  destruct (negb agent_is_speaking); [eexists; reflexivity|].
  destruct (_ || _); [eexists; reflexivity|].
  rewrite contains_keyword_loop_eq. cbn [bind].
  destruct (existsb _ _); [eexists; reflexivity|].
  rewrite is_only_ignore_words_eq. cbn [bind].
  destruct (remaining_words_loop _ _); eexists; reflexivity.
Qed.

(** * The two bypasses and the blank transcript *)

(** C5. With [enabled == false], [should_interrupt] returns true for every
    transcript, both values of [agent_is_speaking] and all word sets. *)
Theorem disabled_always_interrupts (cfg : InterruptionFilterConfig) (t : text)
  (agent_is_speaking : bool) :
  enabled cfg = false ->
  should_interrupt cfg t agent_is_speaking = Some true.
Proof. intros He. unfold should_interrupt. rewrite He. reflexivity. Qed.

Lemma disabled_always_interrupts_witness :
  should_interrupt
    {| ignore_words := DEFAULT_IGNORE_WORDS;
       interrupt_keywords := []; enabled := false |}
    (str "   ") true = Some true.
Proof. apply disabled_always_interrupts. reflexivity. Defined.

(** C6. With [enabled == true] and [agent_is_speaking == false],
    [should_interrupt] returns true for every transcript. *)
Theorem silent_agent_always_interrupts (cfg : InterruptionFilterConfig)
  (t : text) :
  enabled cfg = true ->
  should_interrupt cfg t false = Some true.
Proof. intros He. unfold should_interrupt. rewrite He. reflexivity. Qed.

Lemma silent_agent_always_interrupts_witness :
  should_interrupt default_config (str "yeah") false = Some true.
Proof. apply silent_agent_always_interrupts. reflexivity. Defined.

Lemma lstrip_whitespace_only (t : text) : whitespace_only t -> Py.lstrip t = [].
Proof.
  unfold whitespace_only. induction t as [|c t IH]; intros H; simpl.
  - reflexivity.
  - rewrite (H c (or_introl eq_refl)). apply IH.
    intros d Hd. apply H. right. exact Hd.
Qed.

(** C7. With [enabled == true] and [agent_is_speaking == true], a transcript
    that is empty or consists only of whitespace gives false. *)
Theorem blank_never_interrupts (cfg : InterruptionFilterConfig) (t : text) :
  enabled cfg = true ->
  whitespace_only t ->
  should_interrupt cfg t true = Some false.
Proof.
  intros He Hw. apply should_interrupt_blank; [exact He|].
  unfold Py.strip. rewrite (lstrip_whitespace_only t Hw).
  apply andb_false_r.
Qed.

Lemma blank_never_interrupts_witness :
  should_interrupt default_config [" "%char; "009"%char; "010"%char] true
  = Some false.
Proof.
  apply blank_never_interrupts; [reflexivity|].
  intros c [<- | [<- | [<- | []]]]; reflexivity.
Defined.

(** * The default word sets *)

(** C4, as the specification states it, fails: the default ignore set does
    not have 37 elements. *)
Lemma default_ignore_words_not_37 :
  ~ (same_set DEFAULT_IGNORE_WORDS SPEC_IGNORE_WORDS
     /\ cardinality DEFAULT_IGNORE_WORDS = 37
     /\ same_set DEFAULT_INTERRUPT_KEYWORDS SPEC_INTERRUPT_KEYWORDS
     /\ cardinality DEFAULT_INTERRUPT_KEYWORDS = 39).
Proof. intros [_ [H _]]. vm_compute in H. discriminate H. Qed.

(** C4, amended. The default ignore set is the set of the entries the
    specification lists (yeah through mm-hmm), which are 38 and not 37; the
    default interrupt set is the set of the 39 entries the specification
    lists (stop through won't). *)
Theorem default_word_sets :
  same_set DEFAULT_IGNORE_WORDS SPEC_IGNORE_WORDS
  /\ cardinality DEFAULT_IGNORE_WORDS = 38
  /\ cardinality SPEC_IGNORE_WORDS = 38
  /\ same_set DEFAULT_INTERRUPT_KEYWORDS SPEC_INTERRUPT_KEYWORDS
  /\ cardinality DEFAULT_INTERRUPT_KEYWORDS = 39
  /\ cardinality SPEC_INTERRUPT_KEYWORDS = 39.
Proof.
  repeat split; try (vm_compute; reflexivity); intros H; exact H.
Qed.

(** * Tokens *)

Lemma split_tokens (s tok : text) :
  In tok (Py.split s) ->
  tok <> [] /\ forall c, In c tok -> Py.isspace c = false /\ In c s.
Proof.
  revert tok. induction s as [|c s IH]; intros tok; simpl; [intros []|].
  destruct (Py.isspace c) eqn:Hc.
  - intros H. destruct (IH tok H) as [Hn Hall]. split; [exact Hn|].
    intros x Hx. destruct (Hall x Hx) as [H1 H2]. split; [exact H1 | right; exact H2].
  - assert (Hone : forall x, In x [c] -> Py.isspace x = false /\ In x (c :: s)).
    { intros x [<- | []]. split; [exact Hc | left; reflexivity]. }
    destruct s as [|d s'].
    + intros [<- | []]. split; [discriminate | exact Hone].
    + destruct (Py.isspace d) eqn:Hd.
      * intros [<- | H]; [split; [discriminate | exact Hone]|].
        destruct (IH tok H) as [Hn Hall]. split; [exact Hn|].
        intros x Hx. destruct (Hall x Hx) as [H1 H2].
        split; [exact H1 | right; exact H2].
      * destruct (Py.split (d :: s')) as [|w ws] eqn:Hsp.
        -- intros [<- | []]. split; [discriminate | exact Hone].
        -- intros [<- | H].
           ++ split; [discriminate|]. intros x [<- | Hx].
              ** split; [exact Hc | left; reflexivity].
              ** destruct (IH w (or_introl eq_refl)) as [_ Hall].
                 destruct (Hall x Hx) as [H1 H2].
                 split; [exact H1 | right; exact H2].
           ++ destruct (IH tok (or_intror H)) as [Hn Hall]. split; [exact Hn|].
              intros x Hx. destruct (Hall x Hx) as [H1 H2].
              split; [exact H1 | right; exact H2].
Qed.

Lemma lstrip_head (s : text) :
  (forall c, hd_error s = Some c -> Py.isspace c = false) -> Py.lstrip s = s.
Proof.
  destruct s as [|c s]; simpl; [reflexivity|].
  intros H. rewrite (H c eq_refl). reflexivity.
Qed.

Lemma strip_no_space (s : text) :
  (forall c, In c s -> Py.isspace c = false) -> Py.strip s = s.
Proof.
  intros H. unfold Py.strip, Py.rstrip.
  rewrite (lstrip_head s).
  - rewrite lstrip_head; [apply rev_involutive|].
    intros c Hc. apply H. apply in_rev.
    destruct (rev s); [discriminate Hc|]. injection Hc as ->. left. reflexivity.
  - intros c Hc. apply H. destruct s; [discriminate Hc|].
    injection Hc as ->. left. reflexivity.
Qed.

Lemma sub_outside_delete (keep : ascii -> bool) (s : text) :
  Re.sub_outside keep [] s = filter keep s.
Proof.
  induction s as [|c s IH]; simpl; [reflexivity|].
  destruct (keep c); simpl; rewrite IH; reflexivity.
Qed.

Lemma clean_word_token (tok : text) :
  (forall c, In c tok -> Py.isspace c = false) ->
  clean_word tok = filter Re.word_space_hyphen tok.
Proof.
  intros H. unfold clean_word. rewrite sub_outside_delete.
  apply strip_no_space. intros c Hc. apply filter_In in Hc. apply H, Hc.
Qed.

(** * Cleaning a token *)

Lemma filter_strip_leading (s : text) :
  filter Re.word_space_hyphen (strip_leading punctuation s)
  = filter Re.word_space_hyphen s.
Proof.
  induction s as [|c s IH]; simpl; [reflexivity|].
  destruct (punctuation c) eqn:Hp.
  - rewrite IH. change (punctuation c) with (negb (Re.word_space_hyphen c)) in Hp.
    apply negb_true_iff in Hp. rewrite Hp. reflexivity.
  - reflexivity.
Qed.

Lemma filter_rev {A : Type} (f : A -> bool) (l : list A) :
  filter f (rev l) = rev (filter f l).
Proof.
  induction l as [|x l IH]; simpl; [reflexivity|].
  rewrite filter_app, IH. simpl. destruct (f x); simpl.
  - reflexivity.
  - apply app_nil_r.
Qed.

Lemma filter_strip_edges (s : text) :
  filter Re.word_space_hyphen (strip_edges s) = filter Re.word_space_hyphen s.
Proof.
  unfold strip_edges.
  rewrite filter_rev, filter_strip_leading, filter_rev, rev_involutive.
  apply filter_strip_leading.
Qed.

Lemma filter_fixed {A : Type} (f : A -> bool) (l : list A) :
  filter f l = l <-> forallb f l = true.
Proof.
  split.
  - intros H. rewrite <- H. apply forallb_forall.
    intros x Hx. apply filter_In in Hx. apply Hx.
  - apply forallb_filter_id.
Qed.

(** C3, as the specification states it, fails: the token [o'k] is cleaned
    to [ok], the apostrophe inside it is removed, while stripping the edges
    keeps [o'k]; the filter then takes [o'k] for the ignore word [ok]. *)
Lemma clean_word_not_edges_only :
  clean_word (str "o'k") = str "ok"
  /\ strip_edges (str "o'k") = str "o'k"
  /\ clean_word (str "o'k") <> strip_edges (str "o'k")
  /\ should_interrupt default_config (str "o'k") true = Some false.
Proof.
  split; [reflexivity|]. split; [reflexivity|].
  split; [|reflexivity]. vm_compute. discriminate.
Qed.

(** C3, amended. Every remaining token is cleaned by deleting each
    punctuation character (not alphanumeric, underscore, whitespace or
    hyphen) wherever it stands in the token, inside as well as at the edges:
    the cleaned form is the token's alphanumerics, underscores and hyphens
    in their order.  It is the edge-stripped token exactly when the
    edge-stripped token has no punctuation left inside. *)
Theorem clean_word_deletes_punctuation (remaining tok : text) :
  In tok (Py.split remaining) ->
  clean_word tok = filter (fun c => negb (punctuation c)) tok
  /\ (clean_word tok = strip_edges tok
      <-> forallb (fun c => negb (punctuation c)) (strip_edges tok) = true).
Proof.
  intros Hin. destruct (split_tokens remaining tok Hin) as [_ Hall].
  assert (Hc : clean_word tok = filter Re.word_space_hyphen tok).
  { apply clean_word_token. intros c Hc. apply (Hall c Hc). }
  assert (Hk : forall l, filter (fun c => negb (punctuation c)) l
                         = filter Re.word_space_hyphen l).
  { intros l. apply filter_ext. intros c. apply negb_involutive. }
  split; [rewrite Hk; exact Hc|].
  rewrite Hc, <- (filter_strip_edges tok), <- (Hk (strip_edges tok)).
  apply filter_fixed.
Qed.

Lemma clean_word_deletes_punctuation_witness :
  clean_word (str "o'k!") = filter (fun c => negb (punctuation c)) (str "o'k!")
  /\ (clean_word (str "o'k!") = strip_edges (str "o'k!")
      <-> forallb (fun c => negb (punctuation c)) (strip_edges (str "o'k!")) = true).
Proof.
  apply (clean_word_deletes_punctuation (str "yeah o'k!")).
  vm_compute. right. left. reflexivity.
Defined.

(** * Word boundaries *)

Lemma last_of_snoc (prev : option ascii) (l : text) (c : ascii) :
  last_of prev (l ++ [c]) = Some c.
Proof. unfold last_of. rewrite fold_left_app. reflexivity. Qed.

Lemma last_of_app (prev : option ascii) (a b : text) :
  last_of prev (a ++ b) = last_of (last_of prev a) b.
Proof. unfold last_of. apply fold_left_app. Qed.

Lemma ends_with_word_iff (l : text) :
  ends_with_word l <-> Re.isword_at (last_of None l) = true.
Proof.
  unfold ends_with_word. split.
  - intros [l' [c [-> H]]]. rewrite last_of_snoc. exact H.
  - induction l as [|c l' _] using rev_ind.
    + discriminate.
    + rewrite last_of_snoc. intros H. exists l', c. split; [reflexivity | exact H].
Qed.

Lemma starts_with_word_iff (r : text) :
  starts_with_word r <-> Re.isword_at (hd_error r) = true.
Proof.
  unfold starts_with_word. split.
  - intros [c [r' [-> H]]]. exact H.
  - destruct r as [|c r']; simpl; [discriminate|].
    intros H. exists c, r'. split; [reflexivity | exact H].
Qed.

Lemma word_boundary_iff (l r : text) :
  word_boundary l r <-> Re.at_boundary (last_of None l) (hd_error r) = true.
Proof.
  unfold word_boundary, Re.at_boundary.
  rewrite ends_with_word_iff, starts_with_word_iff.
  destruct (Re.isword_at (last_of None l)), (Re.isword_at (hd_error r));
    simpl; split; intros H; try reflexivity; try discriminate H.
  - destruct H as [[_ H] | [H _]]; exfalso; apply H; reflexivity.
  - left. split; [reflexivity | discriminate].
  - right. split; [discriminate | reflexivity].
  - destruct H as [[H _] | [_ H]]; discriminate H.
Qed.

(** * Matching [\b w \b] *)

Lemma match_literals (w : text) (q : Re.pattern) (prev : option ascii) (s : text) :
  Re.match_here (map Re.Lit w ++ q) prev s
  = if Py.startswith s w
    then option_map (Nat.add (List.length w))
           (Re.match_here q (last_of prev w) (skipn (List.length w) s))
    else None.
Proof.
  revert prev s. induction w as [|c w IH]; intros prev s.
  - simpl. destruct (Re.match_here q prev s); reflexivity.
  - destruct s as [|d s]; [reflexivity|].
    cbn [map app Re.match_here Py.startswith List.length skipn].
    destruct (Ascii.eqb c d) eqn:E; [|reflexivity].
    apply Ascii.eqb_eq in E. subst d. rewrite IH. cbn [andb].
    destruct (Py.startswith s w); [|reflexivity].
    change (last_of prev (c :: w)) with (last_of (Some c) w).
    destruct (Re.match_here q _ _); reflexivity.
Qed.

Lemma match_bounded (w : text) (prev : option ascii) (s : text) :
  Re.match_here (bounded w) prev s
  = if Re.at_boundary prev (hd_error s)
       && Py.startswith s w
       && Re.at_boundary (last_of prev w) (hd_error (skipn (List.length w) s))
    then Some (List.length w)
    else None.
Proof.
  unfold bounded. cbn [Re.match_here].
  destruct (Re.at_boundary prev (hd_error s)); [|reflexivity].
  rewrite match_literals. cbn [andb Re.match_here].
  destruct (Py.startswith s w); [|reflexivity]. cbn [andb].
  destruct (Re.at_boundary _ _); [|reflexivity].
  cbn [option_map]. rewrite Nat.add_0_r. reflexivity.
Qed.

Lemma search_from_iff (p : Re.pattern) (prev : option ascii) (s : text) :
  Re.search_from p prev s = true
  <-> exists pre post,
        s = pre ++ post /\ Re.match_here p (last_of prev pre) post <> None.
Proof.
  revert prev. induction s as [|c s IH]; intros prev; simpl.
  - destruct (Re.match_here p prev []) eqn:E.
    + split; [|reflexivity]. intros _. exists [], []. split; [reflexivity|].
      simpl. rewrite E. discriminate.
    + split; [discriminate|]. intros [pre [post [H1 H2]]].
      symmetry in H1. apply app_eq_nil in H1. destruct H1 as [-> ->].
      simpl in H2. rewrite E in H2. contradiction.
  - destruct (Re.match_here p prev (c :: s)) eqn:E.
    + split; [|reflexivity]. intros _. exists [], (c :: s).
      split; [reflexivity|]. simpl. rewrite E. discriminate.
    + rewrite IH. split.
      * intros [pre [post [-> H]]]. exists (c :: pre), post.
        split; [reflexivity | exact H].
      * intros [pre [post [H1 H2]]]. destruct pre as [|x pre].
        -- simpl in H1, H2. subst post. rewrite E in H2. contradiction.
        -- injection H1 as <- ->. exists pre, post.
           split; [reflexivity | exact H2].
Qed.

Lemma skipn_length_app (w post : text) : skipn (List.length w) (w ++ post) = post.
Proof. induction w as [|c w IH]; simpl; [reflexivity | exact IH]. Qed.

Lemma search_bounded_iff (w n : text) :
  Re.search (bounded w) n = true <-> occurs_bounded w n.
Proof.
  unfold Re.search, occurs_bounded. rewrite search_from_iff. split.
  - intros [pre [rest [-> H]]]. rewrite match_bounded in H.
    destruct (Re.at_boundary (last_of None pre) (hd_error rest)) eqn:B1;
      [|contradiction].
    destruct (Py.startswith rest w) eqn:P; [|contradiction].
    apply startswith_iff in P. destruct P as [post ->].
    rewrite skipn_length_app, <- last_of_app in H.
    destruct (Re.at_boundary (last_of None (pre ++ w)) (hd_error post)) eqn:B2;
      [|contradiction].
    exists pre, post.
    split; [reflexivity|]. split; apply word_boundary_iff; assumption.
  - intros [pre [post [-> [B1 B2]]]]. exists pre, (w ++ post).
    split; [reflexivity|]. rewrite match_bounded.
    apply word_boundary_iff in B1, B2.
    rewrite B1, skipn_length_app, <- last_of_app, B2.
    assert (P : Py.startswith (w ++ post) w = true).
    { apply startswith_iff. exists post. reflexivity. }
    rewrite P. discriminate.
Qed.

Lemma keyword_hit_iff (n keyword : text) :
  keyword_hit n keyword = true <-> keyword_match keyword n.
Proof.
  unfold keyword_hit, keyword_match.
  destruct (Py.contains (str " ") keyword) eqn:E.
  - apply contains_space_iff in E. rewrite contains_iff. split.
    + intros H. split; [intros _; exact H | intros N; contradiction].
    + intros [H _]. exact (H E).
  - assert (N : ~ In " "%char keyword).
    { intros H. apply contains_space_iff in H. rewrite H in E. discriminate E. }
    rewrite search_bounded_iff. split.
    + intros H. split; [intros I; contradiction | intros _; exact H].
    + intros [_ H]. exact (H N).
Qed.

Lemma no_match_in_empty (keyword : text) : ~ keyword_match keyword [].
Proof.
  intros [H1 H2]. destruct (in_dec ascii_dec " "%char keyword) as [I | N].
  - destruct (H1 I) as [pre [post H]]. symmetry in H.
    apply app_eq_nil in H. destruct H as [_ H].
    apply app_eq_nil in H. destruct H as [-> _]. destruct I.
  - destruct (H2 N) as [pre [post [H [B _]]]]. symmetry in H.
    apply app_eq_nil in H. destruct H as [-> H].
    apply app_eq_nil in H. destruct H as [-> ->].
    apply word_boundary_iff in B. discriminate B.
Qed.

(** * Blank transcripts and normalisation *)

Lemma lstrip_nil_iff (t : text) : Py.lstrip t = [] <-> whitespace_only t.
Proof.
  split; [|apply lstrip_whitespace_only].
  unfold whitespace_only. induction t as [|c t IH]; simpl; [intros _ x []|].
  destruct (Py.isspace c) eqn:Hc; [|discriminate].
  intros H x [<- | Hx]; [exact Hc | exact (IH H x Hx)].
Qed.

Lemma lstrip_idem (t : text) : Py.lstrip (Py.lstrip t) = Py.lstrip t.
Proof.
  induction t as [|c t IH]; simpl; [reflexivity|].
  destruct (Py.isspace c) eqn:Hc; [exact IH|]. simpl. rewrite Hc. reflexivity.
Qed.

Lemma whitespace_only_rev (t : text) : whitespace_only (rev t) <-> whitespace_only t.
Proof.
  unfold whitespace_only. split; intros H c Hc; apply H.
  - apply in_rev in Hc. exact Hc.
  - apply in_rev. exact Hc.
Qed.

Lemma strip_nil_iff (t : text) : Py.strip t = [] <-> whitespace_only t.
Proof.
  unfold Py.strip, Py.rstrip. split.
  - intros H. apply (f_equal (@rev ascii)) in H. rewrite rev_involutive in H.
    simpl in H. apply lstrip_nil_iff in H.
    apply (proj1 (whitespace_only_rev _)) in H.
    apply (proj2 (lstrip_nil_iff _)) in H. rewrite lstrip_idem in H.
    apply lstrip_nil_iff. exact H.
  - intros H. apply lstrip_nil_iff in H. rewrite H. reflexivity.
Qed.

Lemma truthy_iff (s : text) : Py.truthy s = true <-> s <> [].
Proof. destruct s; simpl; split; congruence. Qed.

Lemma blank_iff (t : text) :
  Py.truthy t && Py.truthy (Py.strip t) = false <-> whitespace_only t.
Proof.
  split.
  - intros H. apply andb_false_iff in H. destruct H as [H | H].
    + destruct t; [intros c [] | discriminate H].
    + apply strip_nil_iff. destruct (Py.strip t); [reflexivity | discriminate H].
  - intros H. apply strip_nil_iff in H. rewrite H. apply andb_false_r.
Qed.

Lemma split_nil_iff (s : text) : Py.split s = [] <-> whitespace_only s.
Proof.
  unfold whitespace_only. induction s as [|c s IH]; simpl.
  - split; [intros _ x [] | reflexivity].
  - destruct (Py.isspace c) eqn:Hc.
    + rewrite IH. split.
      * intros H x [<- | Hx]; [exact Hc | exact (H x Hx)].
      * intros H x Hx. apply H. right. exact Hx.
    + split.
      * destruct s as [|d s']; [discriminate|].
        destruct (Py.isspace d); [discriminate|].
        destruct (Py.split (d :: s')); discriminate.
      * intros H. rewrite (H c (or_introl eq_refl)) in Hc. discriminate Hc.
Qed.

Lemma whitespace_only_lower (t : text) :
  whitespace_only (Py.lower t) <-> whitespace_only t.
Proof.
  unfold whitespace_only, Py.lower. split.
  - intros H c Hc. rewrite <- isspace_lower. apply H. apply in_map. exact Hc.
  - intros H c Hc. apply in_map_iff in Hc. destruct Hc as [x [<- Hx]].
    rewrite isspace_lower. apply H. exact Hx.
Qed.

Lemma normalize_blank (t : text) : whitespace_only t -> _normalize_text t = [].
Proof.
  intros H. unfold _normalize_text.
  apply whitespace_only_lower, split_nil_iff in H. rewrite H. reflexivity.
Qed.

Lemma split_cons (c : ascii) (s : text) :
  Py.split (c :: s)
  = if Py.isspace c then Py.split s
    else match s with
         | [] => [[c]]
         | d :: _ =>
             if Py.isspace d then [c] :: Py.split s
             else match Py.split s with
                  | w :: ws => (c :: w) :: ws
                  | [] => [[c]]
                  end
         end.
Proof. reflexivity. Qed.

Lemma split_token_app (p rest : text) :
  p <> [] ->
  (forall c, In c p -> Py.isspace c = false) ->
  (forall d, hd_error rest = Some d -> Py.isspace d = true) ->
  Py.split (p ++ rest) = p :: Py.split rest.
Proof.
  intros Hn Hp Hr. induction p as [|a p IH]; [contradiction|].
  assert (Ha : Py.isspace a = false) by (apply Hp; left; reflexivity).
  destruct p as [|b p].
  - cbn [app Py.split]. rewrite Ha. destruct rest as [|d rest]; [reflexivity|].
    rewrite (Hr d eq_refl). reflexivity.
  - assert (Hb : Py.isspace b = false) by (apply Hp; right; left; reflexivity).
    change ((a :: b :: p) ++ rest) with (a :: ((b :: p) ++ rest)).
    rewrite split_cons, Ha, IH.
    + cbn [app]. rewrite Hb. reflexivity.
    + discriminate.
    + intros c Hc. apply Hp. right. exact Hc.
Qed.

Lemma split_join (toks : list text) :
  (forall tok, In tok toks ->
     tok <> [] /\ forall c, In c tok -> Py.isspace c = false) ->
  Py.split (Py.join (str " ") toks) = toks.
Proof.
  induction toks as [|p ps IH]; intros H; [reflexivity|].
  destruct (H p (or_introl eq_refl)) as [Hn Hp].
  destruct ps as [|q ps].
  - cbn [Py.join]. rewrite <- (app_nil_r p) at 1.
    rewrite split_token_app; [reflexivity | exact Hn | exact Hp | discriminate].
  - change (Py.join (str " ") (p :: q :: ps))
      with (p ++ " "%char :: Py.join (str " ") (q :: ps)).
    rewrite split_token_app; [|exact Hn | exact Hp|].
    + change (Py.split (" "%char :: Py.join (str " ") (q :: ps)))
        with (Py.split (Py.join (str " ") (q :: ps))).
      rewrite IH; [reflexivity|]. intros tok Ht. apply H. right. exact Ht.
    + intros d Hd. injection Hd as <-. reflexivity.
Qed.

Lemma in_join (sep : text) (toks : list text) (c : ascii) :
  In c (Py.join sep toks) ->
  In c sep \/ exists tok, In tok toks /\ In c tok.
Proof.
  induction toks as [|p ps IH]; [intros []|].
  destruct ps as [|q ps].
  - intros H. right. exists p. split; [left; reflexivity | exact H].
  - change (Py.join sep (p :: q :: ps)) with (p ++ sep ++ Py.join sep (q :: ps)).
    intros H. apply in_app_or in H. destruct H as [H | H].
    + right. exists p. split; [left; reflexivity | exact H].
    + apply in_app_or in H. destruct H as [H | H]; [left; exact H|].
      destruct (IH H) as [H' | [tok [Ht Hc]]]; [left; exact H'|].
      right. exists tok. split; [right; exact Ht | exact Hc].
Qed.

Lemma lower_fixed (s : text) :
  (forall c, In c s -> Py.lower_char c = c) -> Py.lower s = s.
Proof.
  intros H. unfold Py.lower. rewrite <- (map_id s) at 2.
  apply map_ext_in. exact H.
Qed.



Lemma normalize_idem (t : text) :
  _normalize_text (_normalize_text t) = _normalize_text t.
Proof.
  unfold _normalize_text at 1.
  assert (L : Py.lower (_normalize_text t) = _normalize_text t).
  { apply lower_fixed. intros c Hc. apply in_join in Hc.
    destruct Hc as [[<- | []] | [tok [Ht Hc]]]; [reflexivity|].
    destruct (split_tokens _ _ Ht) as [_ Hall].
    destruct (Hall c Hc) as [_ Hin]. apply in_map_iff in Hin.
    destruct Hin as [x [<- _]]. apply lower_char_idem. }
  rewrite L. unfold _normalize_text. rewrite split_join; [reflexivity|].
  intros tok Ht. destruct (split_tokens _ _ Ht) as [Hn Hall].
  split; [exact Hn|]. intros c Hc. apply (Hall c Hc).
Qed.

Lemma normalize_nonblank (t : text) :
  ~ whitespace_only t -> ~ whitespace_only (_normalize_text t).
Proof.
  intros H W. apply H. apply whitespace_only_lower, split_nil_iff.
  unfold _normalize_text in W.
  destruct (Py.split (Py.lower t)) as [|p ps] eqn:E; [reflexivity|].
  exfalso.
  destruct (split_tokens (Py.lower t) p) as [Hn Hall];
    [rewrite E; left; reflexivity|].
  destruct p as [|c p]; [contradiction|].
  destruct (Hall c (or_introl eq_refl)) as [Hc _].
  assert (Hin : In c (Py.join (str " ") ((c :: p) :: ps))).
  { destruct ps; simpl; left; reflexivity. }
  rewrite (W c Hin) in Hc. discriminate Hc.
Qed.

(** * Case and whitespace do not matter *)

Lemma normalized_decision (cfg : InterruptionFilterConfig) (t : text) :
  should_interrupt cfg t true = should_interrupt cfg (_normalize_text t) true.
Proof.
  destruct (enabled cfg) eqn:He.
  - destruct (Py.truthy t && Py.truthy (Py.strip t)) eqn:B.
    + assert (N : ~ whitespace_only t).
      { intros W. apply blank_iff in W. rewrite W in B. discriminate B. }
      apply normalize_nonblank in N.
      assert (B' : Py.truthy (_normalize_text t)
                   && Py.truthy (Py.strip (_normalize_text t)) = true).
      { apply not_false_is_true. intros E. apply blank_iff in E.
        contradiction. }
      apply andb_true_iff in B, B'. destruct B as [B1 B2], B' as [B1' B2'].
      rewrite (should_interrupt_content cfg t He B1 B2).
      rewrite (should_interrupt_content cfg _ He B1' B2').
      rewrite normalize_idem. reflexivity.
    + rewrite (should_interrupt_blank cfg t He B).
      apply blank_iff, normalize_blank in B. rewrite B.
      symmetry. apply should_interrupt_blank; [exact He | reflexivity].
  - unfold should_interrupt. rewrite He. reflexivity.
Qed.

(** Transcripts with the same normal form get the same decision. *)
Lemma same_normal_form_same_decision (cfg : InterruptionFilterConfig)
  (t1 t2 : text) :
  _normalize_text t1 = _normalize_text t2 ->
  should_interrupt cfg t1 true = should_interrupt cfg t2 true.
Proof.
  intros H. rewrite (normalized_decision cfg t1),
    (normalized_decision cfg t2), H. reflexivity.
Qed.

(** The three spellings of the specification's example. *)
Lemma yeah_spellings (cfg : InterruptionFilterConfig) :
  should_interrupt cfg (str "YEAH") true = should_interrupt cfg (str "yeah") true
  /\ should_interrupt cfg (str "  yeah  ") true
     = should_interrupt cfg (str "yeah") true.
Proof. split; apply same_normal_form_same_decision; reflexivity. Qed.


(** * Interrupt keywords come first *)

(** The matching rule on the specification's examples: [no] matches the
    standalone word and not the inside of [know]; a keyword with a space
    matches as a substring, without boundaries. *)
Lemma keyword_match_examples :
  keyword_match (str "no") (str "no stop")
  /\ ~ keyword_match (str "no") (str "know")
  /\ keyword_match (str "hold on") (str "hold only")
  /\ should_interrupt default_config (str "yeah but wait") true = Some true.
Proof.
  split; [apply keyword_hit_iff; reflexivity|].
  split; [intros H; apply keyword_hit_iff in H; discriminate H|].
  split; [apply keyword_hit_iff; reflexivity | reflexivity].
Qed.

(** C1. With [enabled == true] and [agent_is_speaking == true], every
    transcript whose normalized form contains a match of an interrupt
    keyword gives true, whatever ignore words it also holds; a keyword with
    an inner space matches as a literal substring anywhere, a keyword
    without one matches between two word boundaries. *)
Theorem interrupt_keyword_wins (cfg : InterruptionFilterConfig)
  (t keyword : text) :
  enabled cfg = true ->
  In keyword (interrupt_keywords cfg) ->
  keyword_match keyword (_normalize_text t) ->
  should_interrupt cfg t true = Some true.
Proof.
  intros He Hin Hm.
  destruct (Py.truthy t && Py.truthy (Py.strip t)) eqn:B.
  - apply andb_true_iff in B. destruct B as [B1 B2].
    rewrite (should_interrupt_content cfg t He B1 B2).
    assert (E : existsb (keyword_hit (_normalize_text t))
                  (interrupt_keywords cfg) = true).
    { apply existsb_exists. exists keyword. split; [exact Hin|].
      apply keyword_hit_iff. exact Hm. }
    rewrite E. reflexivity.
  - apply blank_iff, normalize_blank in B. rewrite B in Hm.
    destruct (no_match_in_empty keyword Hm).
Qed.

Lemma interrupt_keyword_wins_witness :
  should_interrupt default_config (str "Yeah  BUT wait") true = Some true.
Proof.
  apply (interrupt_keyword_wins default_config _ (str "but")).
  - reflexivity.
  - vm_compute. do 8 right. left. reflexivity.
  - apply keyword_hit_iff. reflexivity.
Defined.

(** * The ignore-word check *)

Lemma eqb_iff (a b : text) : Py.eqb a b = true <-> a = b.
Proof.
  unfold Py.eqb. destruct (list_eq_dec ascii_dec a b); split; congruence.
Qed.

Lemma mem_iff (w : text) (words : list text) :
  Py.mem w words = true <-> In w words.
Proof.
  unfold Py.mem. rewrite existsb_exists. split.
  - intros [x [Hx E]]. apply eqb_iff in E. subst x. exact Hx.
  - intros H. exists w. split; [exact H | apply eqb_iff; reflexivity].
Qed.

Lemma remaining_words_loop_iff (ignore toks : list text) :
  remaining_words_loop ignore toks = true
  <-> Forall (fun token =>
                clean_word token <> [] -> In (clean_word token) ignore) toks.
Proof.
  induction toks as [|w ws IH]; simpl.
  - split; [constructor | reflexivity].
  - destruct (Py.truthy (clean_word w)) eqn:T;
      destruct (Py.mem (clean_word w) ignore) eqn:M; simpl.
    + rewrite IH. apply mem_iff in M. split.
      * intros H. constructor; [intros _; exact M | exact H].
      * intros H. inversion H. assumption.
    + split; [discriminate|]. intros H. inversion H as [|x l Hw Hl]. subst.
      apply truthy_iff in T. apply Hw, mem_iff in T. rewrite T in M.
      discriminate M.
    + rewrite IH. apply mem_iff in M. split.
      * intros H. constructor; [intros _; exact M | exact H].
      * intros H. inversion H. assumption.
    + rewrite IH. split.
      * intros H. constructor; [|exact H]. intros N.
        apply truthy_iff in N. rewrite N in T. discriminate T.
      * intros H. inversion H. assumption.
Qed.

Lemma ignore_exhausted_iff (cfg : InterruptionFilterConfig) (n : text) :
  ignore_exhausted cfg n
  <-> remaining_words_loop (ignore_words cfg) (Py.split (after_phrases cfg n))
      = true.
Proof.
  unfold ignore_exhausted. rewrite remaining_words_loop_iff. split.
  - intros [H | H]; [rewrite H; constructor | exact H].
  - intros H. right. exact H.
Qed.

(** * [sorted(..., key=len, reverse=True)] *)

Lemma insert_desc_perm {A : Type} (key : A -> nat) (x : A) (l : list A) :
  Permutation (Py.insert_desc key x l) (x :: l).
Proof.
  induction l as [|y l IH]; simpl; [reflexivity|].
  destruct (key x <? key y); [|reflexivity].
  rewrite IH. apply perm_swap.
Qed.

Lemma sorted_reverse_perm {A : Type} (key : A -> nat) (l : list A) :
  Permutation (Py.sorted_reverse key l) l.
Proof.
  induction l as [|x l IH]; simpl; [reflexivity|].
  rewrite insert_desc_perm, IH. reflexivity.
Qed.

Lemma insert_desc_sorted {A : Type} (key : A -> nat) (x : A) (l : list A) :
  StronglySorted (fun a b => key b <= key a) l ->
  StronglySorted (fun a b => key b <= key a) (Py.insert_desc key x l).
Proof.
  induction l as [|y l IH]; intros H; simpl.
  - constructor; constructor.
  - inversion H as [|a b Hs Hf]; subst.
    destruct (key x <? key y) eqn:E.
    + apply Nat.ltb_lt in E. constructor; [apply IH; exact Hs|].
      apply Forall_forall. intros z Hz.
      apply (Permutation_in _ (insert_desc_perm key x l)) in Hz.
      destruct Hz as [<- | Hz]; [lia|].
      rewrite Forall_forall in Hf. apply Hf. exact Hz.
    + apply Nat.ltb_ge in E. constructor; [exact H|].
      constructor; [exact E|]. rewrite Forall_forall in *.
      intros z Hz. specialize (Hf z Hz). lia.
Qed.

Lemma sorted_reverse_sorted {A : Type} (key : A -> nat) (l : list A) :
  StronglySorted (fun a b => key b <= key a) (Py.sorted_reverse key l).
Proof.
  induction l as [|x l IH]; simpl; [constructor|].
  apply insert_desc_sorted. exact IH.
Qed.

(** Stability: the elements of one key keep their order. *)
Lemma sorted_reverse_stable {A : Type} (key : A -> nat) (k : nat) (l : list A) :
  filter (fun x => key x =? k) (Py.sorted_reverse key l)
  = filter (fun x => key x =? k) l.
Proof.
  induction l as [|x l IH]; simpl; [reflexivity|]. rewrite <- IH.
  generalize (Py.sorted_reverse key l) as s. clear IH.
  induction s as [|y s IH]; simpl; [reflexivity|].
  destruct (key x <? key y) eqn:E; [|reflexivity]. simpl. rewrite IH.
  apply Nat.ltb_lt in E.
  destruct (key x =? k) eqn:Ex; destruct (key y =? k) eqn:Ey; try reflexivity.
  apply Nat.eqb_eq in Ex, Ey. lia.
Qed.

Lemma phrases_longest_first_spec (cfg : InterruptionFilterConfig) :
  StronglySorted (fun a b => List.length b <= List.length a)
    (phrases_longest_first cfg)
  /\ forall w, In w (phrases_longest_first cfg)
               <-> In w (ignore_words cfg) /\ In " "%char w.
Proof.
  split; [apply sorted_reverse_sorted|]. intros w.
  unfold phrases_longest_first. split.
  - intros H. apply (Permutation_in _ (sorted_reverse_perm _ _)) in H.
    apply filter_In in H. destruct H as [H1 H2]. split; [exact H1|].
    destruct (in_dec ascii_dec " "%char w); [assumption | discriminate H2].
  - intros [H1 H2].
    apply (Permutation_in _ (Permutation_sym (sorted_reverse_perm _ _))).
    apply filter_In. split; [exact H1|].
    destruct (in_dec ascii_dec " "%char w); [reflexivity | contradiction].
Qed.

(** * [re.sub] on a phrase, read from left to right *)

Lemma match_bounded_iff (w before s : text) :
  Re.match_here (bounded w) (last_of None before) s = Some (List.length w)
  <-> occurs_here w before s.
Proof.
  rewrite match_bounded. unfold occurs_here. split.
  - destruct (Re.at_boundary (last_of None before) (hd_error s)) eqn:B1;
      [|discriminate].
    destruct (Py.startswith s w) eqn:P; [|discriminate].
    apply startswith_iff in P. destruct P as [post ->].
    rewrite skipn_length_app, <- last_of_app.
    destruct (Re.at_boundary (last_of None (before ++ w)) (hd_error post)) eqn:B2;
      [|discriminate].
    intros _. exists post. split; [reflexivity|].
    split; apply word_boundary_iff; assumption.
  - intros [post [-> [B1 B2]]]. apply word_boundary_iff in B1, B2.
    rewrite B1, skipn_length_app, <- last_of_app, B2.
    assert (P : Py.startswith (w ++ post) w = true).
    { apply startswith_iff. exists post. reflexivity. }
    rewrite P. reflexivity.
Qed.

Lemma match_bounded_length (w : text) (prev : option ascii) (s : text) (k : nat) :
  Re.match_here (bounded w) prev s = Some k -> k = List.length w.
Proof.
  rewrite match_bounded. destruct (_ && _ && _); congruence.
Qed.

Lemma sub_from_skip (p : Re.pattern) (repl : text) (prev : option ascii)
  (a post : text) :
  Re.sub_from p repl prev (List.length a) (a ++ post)
  = Re.sub_from p repl (last_of prev a) 0 post.
Proof.
  revert prev. induction a as [|c a IH]; intros prev; [reflexivity|].
  cbn [List.length app Re.sub_from]. rewrite IH. reflexivity.
Qed.

Lemma sub_from_removes (phrase : text) (n : nat) :
  phrase <> [] ->
  forall s before,
    List.length s <= n ->
    removes phrase before s
      (Re.sub_from (bounded phrase) (str " ") (last_of None before) 0 s).
Proof.
  intros Hne. induction n as [|n IH]; intros s before Hlen.
  - destruct s; [|simpl in Hlen; lia].
    cbn [Re.sub_from]. rewrite match_bounded.
    destruct phrase as [|a w]; [contradiction|].
    cbn [Py.startswith]. rewrite andb_false_r. constructor.
  - destruct s as [|c s].
    + cbn [Re.sub_from]. rewrite match_bounded.
      destruct phrase as [|a w]; [contradiction|].
      cbn [Py.startswith]. rewrite andb_false_r. constructor.
    + cbn [Re.sub_from].
      destruct (Re.match_here (bounded phrase) (last_of None before) (c :: s))
        as [k|] eqn:M.
      * pose proof (match_bounded_length _ _ _ _ M) as ->.
        pose proof (proj1 (match_bounded_iff _ _ _) M) as O.
        destruct O as [post [E O]].
        destruct phrase as [|a w]; [contradiction|].
        cbn [List.length]. injection E as <- ->.
        rewrite sub_from_skip.
        change (last_of (Some c) w) with (last_of (last_of None before) (c :: w)).
        rewrite <- last_of_app.
        apply (removes_hit (c :: w) before post).
        -- exists post. split; [reflexivity | exact O].
        -- apply IH. simpl in Hlen. rewrite length_app in Hlen. lia.
      * rewrite <- (last_of_snoc None before c).
        apply removes_keep.
        -- intros O. apply match_bounded_iff in O. rewrite O in M.
           discriminate M.
        -- apply IH. simpl in Hlen. lia.
Qed.

Lemma remove_phrase_removes (phrase remaining : text) :
  phrase <> [] ->
  removes phrase [] remaining (remove_phrase phrase remaining).
Proof.
  intros H. unfold remove_phrase, Re.sub.
  apply (sub_from_removes phrase (List.length remaining) H remaining []).
  apply Nat.le_refl.
Qed.

Lemma removes_inv (phrase before s r : text) :
  removes phrase before s r ->
  (s = [] /\ r = [])
  \/ (exists c s' r',
        s = c :: s' /\ r = c :: r'
        /\ ~ occurs_here phrase before s
        /\ removes phrase (before ++ [c]) s' r')
  \/ (exists post r',
        s = phrase ++ post /\ r = " "%char :: r'
        /\ occurs_here phrase before s
        /\ removes phrase (before ++ phrase) post r').
Proof.
  intros H. destruct H as [before | before c s r N H | before post r O H].
  - left. split; reflexivity.
  - right. left. exists c, s, r. repeat split; assumption.
  - right. right. exists post, r. repeat split; assumption.
Qed.

Lemma removes_functional (phrase before s r1 r2 : text) :
  phrase <> [] ->
  removes phrase before s r1 -> removes phrase before s r2 -> r1 = r2.
Proof.
  intros Hne H1. revert r2.
  induction H1 as [before | before c s r N H1 IH | before post r O H1 IH];
    intros r2 H2; apply removes_inv in H2;
    destruct H2 as [[E ->] | [[c' [s' [r' [E [-> [N' H2]]]]]]
                              | [post' [r' [E [-> [O' H2]]]]]]].
  - reflexivity.
  - discriminate E.
  - symmetry in E. apply app_eq_nil in E. destruct E as [E _]. contradiction.
  - discriminate E.
  - injection E as <- <-. f_equal. apply IH. exact H2.
  - contradiction.
  - apply app_eq_nil in E. destruct E as [E _]. contradiction.
  - contradiction.
  - apply app_inv_head in E. subst post'. f_equal. apply IH. exact H2.
Qed.

Lemma phrase_not_empty (cfg : InterruptionFilterConfig) (phrase : text) :
  In phrase (phrases_longest_first cfg) -> phrase <> [].
Proof.
  intros H ->. apply phrases_longest_first_spec in H. destruct H as [_ []].
Qed.

Lemma ignore_check (cfg : InterruptionFilterConfig) (t : text) :
  enabled cfg = true ->
  ~ whitespace_only t ->
  (forall keyword, In keyword (interrupt_keywords cfg) ->
                   ~ keyword_match keyword (_normalize_text t)) ->
  should_interrupt cfg t true
  = Some (negb (remaining_words_loop (ignore_words cfg)
                  (Py.split (after_phrases cfg (_normalize_text t))))).
Proof.
  intros He Hn Hk.
  assert (B : Py.truthy t && Py.truthy (Py.strip t) = true).
  { apply not_false_is_true. intros E. apply blank_iff in E. contradiction. }
  apply andb_true_iff in B. destruct B as [B1 B2].
  rewrite (should_interrupt_content cfg t He B1 B2).
  assert (E : existsb (keyword_hit (_normalize_text t))
                (interrupt_keywords cfg) = false).
  { apply not_true_is_false. intros E. apply existsb_exists in E.
    destruct E as [k [Hin Hh]]. apply keyword_hit_iff in Hh.
    exact (Hk k Hin Hh). }
  rewrite E. reflexivity.
Qed.

(** C2. With [enabled == true], [agent_is_speaking == true], a transcript
    that is not blank and no interrupt keyword matching its normalized
    form: [should_interrupt] returns false if and only if the
    ignore-word-exhaustiveness check succeeds, and true in every other
    case.  The check removes the word-boundary-delimited occurrences of each
    multi-word ignore phrase, the phrases taken longest first, each
    occurrence replaced by one space ([removes], the occurrences found from
    left to right), and succeeds when no token remains or every remaining
    token with a non-empty cleaned form has it in the ignore set. *)
Theorem ignore_check_decides (cfg : InterruptionFilterConfig) (t : text) :
  enabled cfg = true ->
  ~ whitespace_only t ->
  (forall keyword, In keyword (interrupt_keywords cfg) ->
                   ~ keyword_match keyword (_normalize_text t)) ->
  (should_interrupt cfg t true = Some false
   <-> ignore_exhausted cfg (_normalize_text t))
  /\ (~ ignore_exhausted cfg (_normalize_text t) ->
      should_interrupt cfg t true = Some true)
  /\ StronglySorted (fun a b => List.length b <= List.length a)
       (phrases_longest_first cfg)
  /\ (forall w, In w (phrases_longest_first cfg)
                <-> In w (ignore_words cfg) /\ In " "%char w)
  /\ (forall phrase remaining r,
        In phrase (phrases_longest_first cfg) ->
        (removes phrase [] remaining r <-> r = remove_phrase phrase remaining)).
Proof.
  intros He Hn Hk. rewrite (ignore_check cfg t He Hn Hk).
  rewrite ignore_exhausted_iff.
  assert (R : forall phrase remaining r,
            In phrase (phrases_longest_first cfg) ->
            (removes phrase [] remaining r <-> r = remove_phrase phrase remaining)).
  { intros phrase remaining r Hin. apply phrase_not_empty in Hin. split.
    - intros H. apply (removes_functional phrase [] remaining); [exact Hin | exact H|].
      apply remove_phrase_removes. exact Hin.
    - intros ->. apply remove_phrase_removes. exact Hin. }
  destruct (remaining_words_loop _ _); simpl.
  - split; [split; reflexivity|].
    split; [intros H; exfalso; apply H; reflexivity|].
    split; [apply phrases_longest_first_spec|].
    split; [apply phrases_longest_first_spec | exact R].
  - split; [split; discriminate|].
    split; [reflexivity|].
    split; [apply phrases_longest_first_spec|].
    split; [apply phrases_longest_first_spec | exact R].
Qed.

Lemma ignore_check_decides_witness :
  (should_interrupt default_config (str "Of course,  I see!") true = Some false
   <-> ignore_exhausted default_config (_normalize_text (str "Of course,  I see!")))
  /\ (~ ignore_exhausted default_config (_normalize_text (str "Of course,  I see!")) ->
      should_interrupt default_config (str "Of course,  I see!") true = Some true)
  /\ StronglySorted (fun a b => List.length b <= List.length a)
       (phrases_longest_first default_config)
  /\ (forall w, In w (phrases_longest_first default_config)
                <-> In w (ignore_words default_config) /\ In " "%char w)
  /\ (forall phrase remaining r,
        In phrase (phrases_longest_first default_config) ->
        (removes phrase [] remaining r <-> r = remove_phrase phrase remaining)).
Proof.
  apply ignore_check_decides.
  - reflexivity.
  - intros H. specialize (H "O"%char (or_introl eq_refl)). discriminate H.
  - intros keyword Hin Hm. apply keyword_hit_iff in Hm.
    assert (F : forallb (fun k => negb (keyword_hit
                           (_normalize_text (str "Of course,  I see!")) k))
                  (interrupt_keywords default_config) = true)
      by (vm_compute; reflexivity).
    rewrite forallb_forall in F. specialize (F keyword Hin).
    rewrite Hm in F. discriminate F.
Defined.

(** * Transcripts of punctuation *)

(** In a text without word characters no position is a word boundary, so
    no phrase is removed and no single-word keyword is found. *)
Lemma sub_from_wordless (w repl : text) (prev : option ascii) (s : text) :
  Re.isword_at prev = false ->
  (forall c, In c s -> Re.isword c = false) ->
  Re.sub_from (bounded w) repl prev 0 s = s.
Proof.
  revert prev. induction s as [|c s IH]; intros prev Hp Hs.
  - cbn [Re.sub_from]. rewrite match_bounded.
    unfold Re.at_boundary at 1. rewrite Hp. reflexivity.
  - cbn [Re.sub_from]. rewrite match_bounded.
    unfold Re.at_boundary at 1. rewrite Hp. cbn [hd_error Re.isword_at].
    rewrite (Hs c (or_introl eq_refl)). cbn [xorb andb].
    f_equal. apply IH.
    + apply (Hs c). left. reflexivity.
    + intros x Hx. apply Hs. right. exact Hx.
Qed.

Lemma after_phrases_wordless (cfg : InterruptionFilterConfig) (n : text) :
  (forall c, In c n -> Re.isword c = false) -> after_phrases cfg n = n.
Proof.
  intros H. unfold after_phrases.
  induction (phrases_longest_first cfg) as [|p ps IH]; [reflexivity|].
  cbn [fold_left]. unfold remove_phrase at 2, Re.sub.
  rewrite sub_from_wordless; [exact IH | reflexivity | exact H].
Qed.

Lemma keyword_hit_wordless (n keyword : text) :
  (forall c, In c n -> Re.isword c = false) ->
  (In " "%char keyword -> exists c, In c keyword /\ Re.isword c = true) ->
  keyword_hit n keyword = false.
Proof.
  intros Hn Hk. apply not_true_is_false. intros H.
  apply keyword_hit_iff in H. destruct H as [H1 H2].
  destruct (in_dec ascii_dec " "%char keyword) as [I | N].
  - destruct (H1 I) as [pre [post ->]]. destruct (Hk I) as [c [Hc Hw]].
    rewrite Hn in Hw; [discriminate Hw|].
    apply in_or_app. right. apply in_or_app. left. exact Hc.
  - destruct (H2 N) as [pre [post [-> [B _]]]].
    destruct B as [[[l [c [-> Hw]]] _] | [_ [c [r [E Hw]]]]].
    + rewrite Hn in Hw; [discriminate Hw|].
      apply in_or_app. left. apply in_or_app. right. left. reflexivity.
    + rewrite Hn in Hw; [discriminate Hw|].
      apply in_or_app. right. rewrite E. left. reflexivity.
Qed.

Lemma in_normalize (t : text) (c : ascii) :
  In c (_normalize_text t) ->
  c = " "%char \/ exists x, In x t /\ c = Py.lower_char x.
Proof.
  intros H. apply in_join in H.
  destruct H as [[<- | []] | [tok [Ht Hc]]]; [left; reflexivity|].
  right. destruct (split_tokens _ _ Ht) as [_ Hall].
  destruct (Hall c Hc) as [_ Hin]. apply in_map_iff in Hin.
  destruct Hin as [x [<- Hx]]. exists x. split; [exact Hx | reflexivity].
Qed.

Lemma filter_none {A : Type} (f : A -> bool) (l : list A) :
  (forall x, In x l -> f x = false) -> filter f l = [].
Proof.
  induction l as [|x l IH]; intros H; simpl; [reflexivity|].
  rewrite (H x (or_introl eq_refl)). apply IH.
  intros y Hy. apply H. right. exact Hy.
Qed.

Lemma punctuation_only (cfg : InterruptionFilterConfig) (t : text) :
  enabled cfg = true ->
  (forall keyword, In keyword (interrupt_keywords cfg) ->
     In " "%char keyword -> exists c, In c keyword /\ Re.isword c = true) ->
  ~ whitespace_only t ->
  (forall c, In c t ->
     Py.isalnum c = false /\ c <> "_"%char /\ c <> "-"%char) ->
  should_interrupt cfg t true = Some false.
Proof.
  intros He Hk Hn Ht.
  assert (Hc : forall c, In c (_normalize_text t) ->
                 Re.isword c = false /\ Ascii.eqb c "-" = false).
  { intros c Hc. apply in_normalize in Hc.
    destruct Hc as [-> | [x [Hx ->]]]; [split; reflexivity|].
    rewrite isword_lower, hyphen_lower.
    destruct (Ht x Hx) as [H1 [H2 H3]]. unfold Re.isword. rewrite H1.
    apply Ascii.eqb_neq in H2, H3. rewrite H2, H3. split; reflexivity. }
  assert (B : Py.truthy t && Py.truthy (Py.strip t) = true).
  { apply not_false_is_true. intros E. apply blank_iff in E. contradiction. }
  apply andb_true_iff in B. destruct B as [B1 B2].
  rewrite (should_interrupt_content cfg t He B1 B2).
  assert (E : existsb (keyword_hit (_normalize_text t))
                (interrupt_keywords cfg) = false).
  { apply not_true_is_false. intros E. apply existsb_exists in E.
    destruct E as [k [Hin Hh]].
    rewrite keyword_hit_wordless in Hh; [discriminate Hh | | apply Hk, Hin].
    intros c Hin'. apply (Hc c Hin'). }
  rewrite E, after_phrases_wordless; [|intros c Hin; apply (Hc c Hin)].
  assert (L : remaining_words_loop (ignore_words cfg)
                (Py.split (_normalize_text t)) = true).
  { apply remaining_words_loop_iff, Forall_forall. intros tok Htok N.
    exfalso. apply N. destruct (split_tokens _ _ Htok) as [_ Hall].
    rewrite clean_word_token; [|intros c Hin; apply (Hall c Hin)].
    apply filter_none. intros c Hin. destruct (Hall c Hin) as [Hs Hin'].
    destruct (Hc c Hin') as [Hw Hh]. unfold Re.word_space_hyphen.
    rewrite Hw, Hs, Hh. reflexivity. }
  rewrite L. reflexivity.
Qed.

(** C10. Under the default configuration (whatever the iteration order of
    its two sets), with [enabled == true] and [agent_is_speaking == true],
    a transcript with at least one non-whitespace character and no
    alphanumeric character, no underscore and no hyphen gives false: no
    interrupt keyword matches it and every token cleans to the empty
    string. *)
Theorem punctuation_only_is_ignored (cfg : InterruptionFilterConfig) (t : text) :
  enabled cfg = true ->
  Permutation (ignore_words cfg) DEFAULT_IGNORE_WORDS ->
  Permutation (interrupt_keywords cfg) DEFAULT_INTERRUPT_KEYWORDS ->
  (exists c, In c t /\ Py.isspace c = false) ->
  (forall c, In c t ->
     Py.isalnum c = false /\ c <> "_"%char /\ c <> "-"%char) ->
  should_interrupt cfg t true = Some false.
Proof.
  intros He _ Pk [c [Hin Hs]] Ht.
  apply punctuation_only; [exact He | | | exact Ht].
  - intros keyword Hk _. apply (Permutation_in _ Pk) in Hk.
    assert (F : forallb (existsb Re.isword) DEFAULT_INTERRUPT_KEYWORDS = true)
      by (vm_compute; reflexivity).
    rewrite forallb_forall in F. apply existsb_exists. apply F. exact Hk.
  - intros W. rewrite (W c Hin) in Hs. discriminate Hs.
Qed.

Lemma punctuation_only_is_ignored_witness :
  should_interrupt default_config (str "?! ,") true = Some false.
Proof.
  apply punctuation_only_is_ignored.
  - reflexivity.
  - apply Permutation_refl.
  - apply Permutation_refl.
  - exists "?"%char. split; [left; reflexivity | reflexivity].
  - intros c [<- | [<- | [<- | [<- | []]]]];
      (split; [reflexivity | split; discriminate]).
Defined.

(** * The repository's tests, run on the embedding *)

Ltac run_all :=
  repeat (apply Forall_cons; [vm_compute; reflexivity|]); apply Forall_nil.

Example test_single_filler_word_ignored_when_speaking :
  Forall (fun w => should_interrupt default_config (str w) true = Some false)
    [ "yeah"; "yes"; "yep"; "yup"; "ok"; "okay"; "hmm"; "mhm"; "uh-huh";
      "right"; "aha"; "i see"; "sure"; "got it"; "alright"; "cool"; "nice";
      "great"; "good"; "fine" ]%string.
Proof. run_all. Qed.

Example test_filler_words_processed_when_silent :
  Forall (fun w => should_interrupt default_config (str w) false = Some true)
    [ "yeah"; "yes"; "ok"; "hmm"; "right" ]%string.
Proof. run_all. Qed.

Example test_case_insensitive :
  Forall (fun w => should_interrupt default_config (str w) true = Some false)
    [ "YEAH"; "Yeah"; "YeAh"; "yeah ok hmm" ]%string.
Proof. run_all. Qed.

Example test_interrupt_keywords_work_when_speaking :
  Forall (fun w => should_interrupt default_config (str w) true = Some true)
    [ "stop"; "wait"; "no"; "nope"; "pause"; "actually"; "but"; "however";
      "excuse me"; "sorry"; "hold on" ]%string.
Proof. run_all. Qed.

Example test_mixed_input :
  Forall (fun w => should_interrupt default_config (str w) true = Some true)
    [ "yeah but wait"; "ok but actually"; "hmm wait a second"; "yeah no stop";
      "ok hold on"; "yeah actually"; "yeah what"; "ok tell me"; "hmm explain";
      "right so"; "no stop"; "yeah okay but wait" ]%string.
Proof. run_all. Qed.

Example test_edge_cases :
  Forall (fun w => should_interrupt default_config (str w) true = Some false)
    [ ""; "   "; "i see"; "okay"; "uh-huh" ]%string.
Proof. run_all. Qed.

Example test_disabled_filter_always_allows_interrupt :
  let cfg := {| ignore_words := DEFAULT_IGNORE_WORDS;
                interrupt_keywords := DEFAULT_INTERRUPT_KEYWORDS;
                enabled := false |} in
  should_interrupt cfg (str "yeah") true = Some true
  /\ should_interrupt cfg (str "yeah") false = Some true.
Proof. split; reflexivity. Qed.

(** [re.sub] and [re.search] on the patterns of the program. *)
Example sub_examples :
  remove_phrase (str "i see") (str "i see i seen") = str "  i seen"
  /\ remove_phrase (str "got it") (str "ok got it. got it") = str "ok  .  "
  /\ remove_phrase (str "a a") (str "a a a") = str "  a"
  /\ Re.search (bounded (str "no")) (str "i know") = false
  /\ Re.search (bounded (str "no")) (str "oh no!") = true
  /\ Re.search (bounded (str "don't")) (str "please don't") = true.
Proof. repeat split; reflexivity. Qed.

(** * Further properties of the filter *)

(** ** The keyword test *)

(** X1. [_contains_interrupt_keyword] answers true exactly when some
    configured keyword matches the text, and false exactly when none does:
    the early return of the loop makes no difference. *)
Theorem contains_interrupt_keyword_iff (cfg : InterruptionFilterConfig)
  (n : text) :
  (_contains_interrupt_keyword cfg n = Some true
   <-> exists keyword,
         In keyword (interrupt_keywords cfg) /\ keyword_match keyword n)
  /\ (_contains_interrupt_keyword cfg n = Some false
      <-> forall keyword,
            In keyword (interrupt_keywords cfg) -> ~ keyword_match keyword n).
Proof.
  unfold _contains_interrupt_keyword. rewrite contains_keyword_loop_eq.
  destruct (existsb (keyword_hit n) (interrupt_keywords cfg)) eqn:E.
  - apply existsb_exists in E. destruct E as [k [Hin Hk]].
    apply keyword_hit_iff in Hk. split.
    + split; [intros _; exists k; split; assumption | reflexivity].
    + split; [discriminate|]. intros H. destruct (H k Hin Hk).
  - assert (N : forall k, In k (interrupt_keywords cfg) -> ~ keyword_match k n).
    { intros k Hin Hk. apply keyword_hit_iff in Hk.
      assert (T : existsb (keyword_hit n) (interrupt_keywords cfg) = true).
      { apply existsb_exists. exists k. split; assumption. }
      rewrite T in E. discriminate E. }
    split.
    + split; [discriminate|]. intros [k [Hin Hk]]. destruct (N k Hin Hk).
    + split; [intros _; exact N | reflexivity].
Qed.

(** ** The whole decision *)

Lemma decision_closed (cfg : InterruptionFilterConfig) (t : text) (b : bool) :
  should_interrupt cfg t b
  = Some (negb (enabled cfg) || negb b
          || (Py.truthy t && Py.truthy (Py.strip t))
             && (existsb (keyword_hit (_normalize_text t)) (interrupt_keywords cfg)
                 || negb (remaining_words_loop (ignore_words cfg)
                            (Py.split (after_phrases cfg (_normalize_text t)))))).
Proof.
  destruct (enabled cfg) eqn:He.
  - destruct b.
    + destruct (Py.truthy t && Py.truthy (Py.strip t)) eqn:B.
      * apply andb_true_iff in B. destruct B as [B1 B2].
        rewrite (should_interrupt_content cfg t He B1 B2). reflexivity.
      * rewrite (should_interrupt_blank cfg t He B). reflexivity.
    + unfold should_interrupt. rewrite He. reflexivity.
  - unfold should_interrupt. rewrite He. reflexivity.
Qed.

(** X2. The decision table of [should_interrupt]: it answers true exactly
    when the filter is off, or the agent is silent, or the transcript is not
    blank and either an interrupt keyword matches its normal form or the
    ignore check fails on it; it answers false in exactly the other
    cases. *)
Theorem should_interrupt_decision (cfg : InterruptionFilterConfig) (t : text)
  (agent_is_speaking : bool) :
  (should_interrupt cfg t agent_is_speaking = Some true
   <-> enabled cfg = false
       \/ agent_is_speaking = false
       \/ (~ whitespace_only t
           /\ ((exists keyword,
                  In keyword (interrupt_keywords cfg)
                  /\ keyword_match keyword (_normalize_text t))
               \/ ~ ignore_exhausted cfg (_normalize_text t))))
  /\ (should_interrupt cfg t agent_is_speaking = Some false
      <-> enabled cfg = true
          /\ agent_is_speaking = true
          /\ (whitespace_only t
              \/ ((forall keyword,
                     In keyword (interrupt_keywords cfg) ->
                     ~ keyword_match keyword (_normalize_text t))
                  /\ ignore_exhausted cfg (_normalize_text t)))).
Proof.
  rewrite decision_closed.
  pose proof (blank_iff t) as Hb.
  pose proof (ignore_exhausted_iff cfg (_normalize_text t)) as Hi.
  assert (Hk : existsb (keyword_hit (_normalize_text t)) (interrupt_keywords cfg)
               = true
               <-> exists keyword,
                     In keyword (interrupt_keywords cfg)
                     /\ keyword_match keyword (_normalize_text t)).
  { rewrite existsb_exists. split; intros [k [H1 H2]]; exists k;
      (split; [exact H1 | apply keyword_hit_iff; exact H2]). }
  destruct (enabled cfg); cbn [negb orb].
  2:{ split; split; try discriminate; try (intros [H _]; discriminate H).
      - intros _. left. reflexivity.
      - reflexivity. }
  destruct agent_is_speaking; cbn [negb orb].
  2:{ split; split; try discriminate; try (intros [_ [H _]]; discriminate H).
      - intros _. right. left. reflexivity.
      - reflexivity. }
  destruct (Py.truthy t && Py.truthy (Py.strip t)) eqn:B; cbn [andb].
  - assert (N : ~ whitespace_only t).
    { intros W. apply Hb in W. discriminate W. }
    destruct (existsb _ _) eqn:E; cbn [orb].
    + destruct (proj1 Hk eq_refl) as [k [Hin Hm]]. split.
      * split; [|reflexivity]. intros _. right. right.
        split; [exact N|]. left. exists k. split; assumption.
      * split; [discriminate|]. intros [_ [_ [W | [H _]]]];
          [contradiction | destruct (H k Hin Hm)].
    + assert (K : forall k, In k (interrupt_keywords cfg) ->
                    ~ keyword_match k (_normalize_text t)).
      { intros k Hin Hm. assert (T : false = true);
          [|discriminate T]. apply Hk. exists k. split; assumption. }
      destruct (remaining_words_loop _ _) eqn:L; cbn [negb].
      * split.
        -- split; [discriminate|].
           intros [H | [H | [_ [[k [Hin Hm]] | H]]]]; try discriminate H.
           ++ destruct (K k Hin Hm).
           ++ exfalso. apply H, Hi. reflexivity.
        -- split; [|reflexivity]. intros _. split; [reflexivity|].
           split; [reflexivity|]. right. split; [exact K | apply Hi; reflexivity].
      * split.
        -- split; [|reflexivity]. intros _. right. right. split; [exact N|].
           right. intros H. apply Hi in H. discriminate H.
        -- split; [discriminate|]. intros [_ [_ [W | [_ H]]]];
             [contradiction | apply Hi in H; discriminate H].
  - clear B. pose proof (proj1 Hb eq_refl) as B. split.
    + split; [discriminate|].
      intros [H | [H | [N _]]]; try discriminate H. contradiction.
    + split; [|reflexivity]. intros _. split; [reflexivity|].
      split; [reflexivity|]. left. exact B.
Qed.

(** X3. Adding interrupt keywords never silences an interruption: when the
    keywords of [cfg] are among those of [cfg'] and the rest of the
    configuration is the same, every transcript that interrupts under [cfg]
    interrupts under [cfg']. *)
Theorem more_keywords_more_interruptions (cfg cfg' : InterruptionFilterConfig)
  (t : text) (agent_is_speaking : bool) :
  enabled cfg' = enabled cfg ->
  ignore_words cfg' = ignore_words cfg ->
  incl (interrupt_keywords cfg) (interrupt_keywords cfg') ->
  should_interrupt cfg t agent_is_speaking = Some true ->
  should_interrupt cfg' t agent_is_speaking = Some true.
Proof.
  intros He Hi Hk. rewrite !decision_closed.
  assert (A : after_phrases cfg' (_normalize_text t)
              = after_phrases cfg (_normalize_text t)).
  { unfold after_phrases, phrases_longest_first. rewrite Hi. reflexivity. }
  rewrite He, Hi, A. intros H. injection H as H. f_equal.
  destruct (negb (enabled cfg) || negb agent_is_speaking); [reflexivity|].
  cbn [orb] in *. destruct (Py.truthy t && Py.truthy (Py.strip t));
    [|discriminate H]. cbn [andb] in *.
  destruct (remaining_words_loop _ _); cbn [negb] in *;
    [|apply orb_true_r].
  rewrite orb_false_r in *. apply existsb_exists in H.
  destruct H as [k [Hin Hh]]. apply existsb_exists. exists k.
  split; [apply Hk; exact Hin | exact Hh].
Qed.

Lemma more_keywords_more_interruptions_witness :
  should_interrupt
    {| ignore_words := DEFAULT_IGNORE_WORDS;
       interrupt_keywords := str "yeah" :: DEFAULT_INTERRUPT_KEYWORDS;
       enabled := true |}
    (str "yeah what") true = Some true.
Proof.
  apply (more_keywords_more_interruptions default_config).
  - reflexivity.
  - reflexivity.
  - intros k Hk. right. exact Hk.
  - reflexivity.
Defined.

(** ** The normal form *)

Lemma normalize_tokens (t tok : text) :
  In tok (Py.split (Py.lower t)) ->
  tok <> [] /\ forall c, In c tok -> Py.isspace c = false.
Proof.
  intros H. destruct (split_tokens _ _ H) as [Hn Hall].
  split; [exact Hn|]. intros c Hc. apply (Hall c Hc).
Qed.

Lemma split_normalize (t : text) :
  Py.split (_normalize_text t) = Py.split (Py.lower t).
Proof. unfold _normalize_text. apply split_join, normalize_tokens. Qed.

Lemma join_head (toks : list text) :
  (forall tok, In tok toks ->
     tok <> [] /\ forall c, In c tok -> Py.isspace c = false) ->
  toks <> [] ->
  exists c rest, Py.join (str " ") toks = c :: rest /\ Py.isspace c = false.
Proof.
  intros H Hn. destruct toks as [|p ps]; [contradiction|].
  destruct (H p (or_introl eq_refl)) as [Hp Hc].
  destruct p as [|c p]; [contradiction|].
  exists c. destruct ps as [|q ps].
  - exists p. split; [reflexivity | apply Hc; left; reflexivity].
  - exists (p ++ str " " ++ Py.join (str " ") (q :: ps)).
    split; [reflexivity | apply Hc; left; reflexivity].
Qed.

Lemma join_last (toks : list text) :
  (forall tok, In tok toks ->
     tok <> [] /\ forall c, In c tok -> Py.isspace c = false) ->
  toks <> [] ->
  exists s c, Py.join (str " ") toks = s ++ [c] /\ Py.isspace c = false.
Proof.
  induction toks as [|p ps IH]; intros H Hn; [contradiction|].
  destruct ps as [|q ps].
  - destruct (H p (or_introl eq_refl)) as [Hp Hc].
    destruct (exists_last Hp) as [s [c E]]. exists s, c.
    split; [exact E|]. apply Hc. rewrite E. apply in_or_app. right. left.
    reflexivity.
  - destruct IH as [s [c [E Hc]]].
    + intros tok Ht. apply H. right. exact Ht.
    + discriminate.
    + exists (p ++ str " " ++ s), c. split; [|exact Hc].
      change (Py.join (str " ") (p :: q :: ps))
        with (p ++ str " " ++ Py.join (str " ") (q :: ps)).
      rewrite E, <- !app_assoc. reflexivity.
Qed.

Lemma contains_skip_token (p s : text) :
  (forall c, In c p -> Py.isspace c = false) ->
  Py.contains (str "  ") (p ++ s) = Py.contains (str "  ") s.
Proof.
  intros H. induction p as [|c p IH]; [reflexivity|].
  change ((c :: p) ++ s) with (c :: (p ++ s)). cbn [Py.contains].
  rewrite IH; [|intros x Hx; apply H; right; exact Hx].
  assert (E : Ascii.eqb " " c = false).
  { apply Ascii.eqb_neq. intros <-.
    specialize (H " "%char (or_introl eq_refl)). discriminate H. }
  cbn [str list_ascii_of_string Py.startswith]. rewrite E. reflexivity.
Qed.

Lemma join_single_spaces (toks : list text) :
  (forall tok, In tok toks ->
     tok <> [] /\ forall c, In c tok -> Py.isspace c = false) ->
  Py.contains (str "  ") (Py.join (str " ") toks) = false.
Proof.
  induction toks as [|p ps IH]; intros H; [reflexivity|].
  destruct (H p (or_introl eq_refl)) as [_ Hp].
  destruct ps as [|q ps].
  - cbn [Py.join]. rewrite <- (app_nil_r p), contains_skip_token; [reflexivity|].
    exact Hp.
  - change (Py.join (str " ") (p :: q :: ps))
      with (p ++ " "%char :: Py.join (str " ") (q :: ps)).
    rewrite contains_skip_token; [|exact Hp].
    assert (Hq : forall tok, In tok (q :: ps) ->
                   tok <> [] /\ forall c, In c tok -> Py.isspace c = false).
    { intros tok Ht. apply H. right. exact Ht. }
    destruct (join_head (q :: ps) Hq) as [c [rest [E Hc]]]; [discriminate|].
    cbn [Py.contains]. rewrite (IH Hq), E.
    assert (Ec : Ascii.eqb " " c = false).
    { apply Ascii.eqb_neq. intros <-. discriminate Hc. }
    cbn [str list_ascii_of_string Py.startswith]. rewrite Ec. reflexivity.
Qed.

(** X4. The result of [_normalize_text] is in normal form: it is empty
    exactly for a blank transcript, its only whitespace character is the
    space, it neither starts nor ends with whitespace, it holds no two
    spaces in a row, and lower-casing leaves it unchanged. *)
Theorem normalize_text_normal_form (t : text) :
  (_normalize_text t = [] <-> whitespace_only t)
  /\ (forall c, In c (_normalize_text t) -> Py.isspace c = true -> c = " "%char)
  /\ Py.strip (_normalize_text t) = _normalize_text t
  /\ Py.contains (str "  ") (_normalize_text t) = false
  /\ Py.lower (_normalize_text t) = _normalize_text t.
Proof.
  pose proof (normalize_tokens t) as G.
  split; [|split; [|split; [|split]]].
  - split; [|apply normalize_blank]. intros E.
    apply whitespace_only_lower, split_nil_iff.
    destruct (Py.split (Py.lower t)) as [|p ps] eqn:S; [reflexivity|].
    destruct (join_head (p :: ps)) as [c [rest [J _]]];
      [exact G | discriminate|].
    unfold _normalize_text in E. rewrite S, J in E. discriminate E.
  - intros c Hc Hs. apply in_join in Hc.
    destruct Hc as [[<- | []] | [tok [Ht Hc]]]; [reflexivity|].
    destruct (G tok Ht) as [_ Hall]. rewrite (Hall c Hc) in Hs. discriminate Hs.
  - unfold _normalize_text.
    destruct (Py.split (Py.lower t)) as [|p ps] eqn:S; [reflexivity|].
    assert (G' : forall tok, In tok (p :: ps) ->
                   tok <> [] /\ forall c, In c tok -> Py.isspace c = false)
      by exact G.
    destruct (join_head (p :: ps) G') as [c [rest [J Hc]]]; [discriminate|].
    destruct (join_last (p :: ps) G') as [s [d [L Hd]]]; [discriminate|].
    unfold Py.strip, Py.rstrip. rewrite J. cbn [Py.lstrip]. rewrite Hc.
    rewrite <- J, L, rev_app_distr. cbn [rev app Py.lstrip]. rewrite Hd.
    change (d :: rev s) with (rev [d] ++ rev s).
    rewrite <- rev_app_distr. apply rev_involutive.
  - apply join_single_spaces. exact G.
  - apply lower_fixed. intros c Hc. apply in_normalize in Hc.
    destruct Hc as [-> | [x [_ ->]]]; [reflexivity | apply lower_char_idem].
Qed.

(** ** Empty word sets *)

Lemma split_covers (s : text) (c : ascii) :
  In c s -> Py.isspace c = false ->
  exists tok, In tok (Py.split s) /\ In c tok.
Proof.
  intros Hin Hc. induction s as [|d s IH]; [destruct Hin|].
  rewrite split_cons. destruct (Py.isspace d) eqn:Hd.
  - destruct Hin as [<- | Hin]; [rewrite Hd in Hc; discriminate Hc|].
    exact (IH Hin).
  - destruct s as [|e s'].
    + destruct Hin as [<- | []]. exists [d]. split; left; reflexivity.
    + destruct (Py.isspace e) eqn:He.
      * destruct Hin as [<- | Hin].
        -- exists [d]. split; left; reflexivity.
        -- destruct (IH Hin) as [tok [Ht Hc']]. exists tok.
           split; [right; exact Ht | exact Hc'].
      * destruct (Py.split (e :: s')) as [|w ws] eqn:S.
        -- destruct Hin as [<- | Hin].
           ++ exists [d]. split; left; reflexivity.
           ++ destruct (IH Hin) as [tok [[] _]].
        -- destruct Hin as [<- | Hin].
           ++ exists (d :: w). split; left; reflexivity.
           ++ destruct (IH Hin) as [tok [[<- | Ht] Hc']].
              ** exists (d :: w). split; [left; reflexivity | right; exact Hc'].
              ** exists tok. split; [right; exact Ht | exact Hc'].
Qed.

Lemma kept_not_space (c : ascii) :
  Re.isword c || Ascii.eqb c "-" = true -> Py.isspace c = false.
Proof. each_char c; vm_compute; intros H; (discriminate H || reflexivity). Qed.

(** X5. With both word sets empty (and the filter on, the agent speaking)
    the decision is true exactly for the transcripts that hold a letter, a
    digit, an underscore or a hyphen; a transcript of punctuation and
    whitespace alone does not interrupt. *)
Theorem empty_sets_decision (cfg : InterruptionFilterConfig) (t : text) :
  enabled cfg = true ->
  ignore_words cfg = [] ->
  interrupt_keywords cfg = [] ->
  should_interrupt cfg t true
  = Some (existsb (fun c => Re.isword c || Ascii.eqb c "-") t).
Proof.
  intros He Hi Hk. rewrite decision_closed, He, Hk. cbn [negb orb existsb].
  assert (A : after_phrases cfg (_normalize_text t) = _normalize_text t).
  { unfold after_phrases, phrases_longest_first. rewrite Hi. reflexivity. }
  rewrite A, Hi, split_normalize. f_equal. apply eq_true_iff_eq.
  rewrite andb_true_iff, negb_true_iff, existsb_exists. split.
  - intros [_ L].
    assert (N : ~ Forall (fun tok => clean_word tok <> [] -> In (clean_word tok) [])
                  (Py.split (Py.lower t))).
    { intros F. apply remaining_words_loop_iff in F. rewrite F in L.
      discriminate L. }
    apply neg_Forall_Exists_neg in N.
    2:{ intros tok. destruct (clean_word tok); [left; intros H; destruct H;
          reflexivity | right; intros H; apply (H ltac:(discriminate))]. }
    apply Exists_exists in N. destruct N as [tok [Ht Hc]].
    destruct (normalize_tokens t tok Ht) as [_ Hall].
    rewrite (clean_word_token tok Hall) in Hc.
    destruct (filter Re.word_space_hyphen tok) as [|c f] eqn:F.
    { exfalso. apply Hc. intros H. destruct H. reflexivity. }
    assert (Hf : In c (filter Re.word_space_hyphen tok))
      by (rewrite F; left; reflexivity).
    apply filter_In in Hf. destruct Hf as [Hin Hw].
    destruct (split_tokens _ _ Ht) as [_ Hall'].
    destruct (Hall' c Hin) as [Hs Hl]. apply in_map_iff in Hl.
    destruct Hl as [x [<- Hx]]. exists x. split; [exact Hx|].
    unfold Re.word_space_hyphen in Hw. rewrite Hs, orb_false_r in Hw.
    rewrite isword_lower, hyphen_lower in Hw. exact Hw.
  - intros [x [Hx Hw]]. pose proof (kept_not_space x Hw) as Hs. split.
    + apply not_false_is_true. intros B. apply blank_iff in B.
      rewrite (B x Hx) in Hs. discriminate Hs.
    + apply not_true_is_false. intros L. apply remaining_words_loop_iff in L.
      destruct (split_covers (Py.lower t) (Py.lower_char x)) as [tok [Ht Hc]].
      * apply in_map. exact Hx.
      * rewrite isspace_lower. exact Hs.
      * rewrite Forall_forall in L. specialize (L tok Ht).
        destruct (normalize_tokens t tok Ht) as [_ Hall].
        rewrite (clean_word_token tok Hall) in L.
        assert (Hf : In (Py.lower_char x) (filter Re.word_space_hyphen tok)).
        { apply filter_In. split; [exact Hc|]. unfold Re.word_space_hyphen.
          rewrite isword_lower, hyphen_lower.
          destruct (Re.isword x); [reflexivity|]. simpl in Hw. rewrite Hw.
          apply orb_true_r. }
        destruct (filter Re.word_space_hyphen tok); [destruct Hf|].
        destruct (L ltac:(discriminate)).
Qed.

Lemma empty_sets_decision_witness :
  should_interrupt
    {| ignore_words := []; interrupt_keywords := []; enabled := true |}
    (str "?! yeah") true
  = Some (existsb (fun c => Re.isword c || Ascii.eqb c "-") (str "?! yeah")).
Proof. apply empty_sets_decision; reflexivity. Defined.

(** ** The filter object *)

Lemma last_cons_default {A : Type} (x : A) (l : list A) (d d' : A) :
  last (x :: l) d = last (x :: l) d'.
Proof.
  revert x. induction l as [|y l IH]; intros x; [reflexivity|].
  change (last (y :: l) d = last (y :: l) d'). apply IH.
Qed.

Lemma config_after_updates (self : InterruptionFilter)
  (updates : list InterruptionFilterConfig) :
  config (fold_left update_config updates self) = last updates (config self).
Proof.
  revert self. induction updates as [|u us IH]; intros self; [reflexivity|].
  cbn [fold_left]. rewrite IH. destruct us as [|v us]; [reflexivity|].
  change (last (u :: v :: us) (config self)) with (last (v :: us) (config self)).
  apply last_cons_default.
Qed.

(** X6. Whatever configurations were passed to [update_config] after the
    construction, the filter holds the last one whole (the one given to the
    constructor, or the defaults for [None], when there was no update) and
    decides with it alone: nothing of an earlier configuration is merged
    in. *)
Theorem last_config_wins (initial : option InterruptionFilterConfig)
  (updates : list InterruptionFilterConfig) (t : text) (agent_is_speaking : bool) :
  let self := fold_left update_config updates (__init__ initial) in
  let current :=
    last updates (match initial with Some c => c | None => default_config end) in
  config self = current
  /\ ask self t agent_is_speaking = should_interrupt current t agent_is_speaking.
Proof.
  cbv zeta. unfold ask. fold (config (fold_left update_config updates (__init__ initial))).
  rewrite config_after_updates. split; reflexivity.
Qed.

(** ** Phrases that do not occur *)

Lemma sub_from_no_match (p : Re.pattern) (repl : text) (prev : option ascii)
  (s : text) :
  Re.search_from p prev s = false -> Re.sub_from p repl prev 0 s = s.
Proof.
  revert prev. induction s as [|c s IH]; intros prev; cbn [Re.search_from Re.sub_from].
  - destruct (Re.match_here p prev []); [discriminate | reflexivity].
  - destruct (Re.match_here p prev (c :: s)); [discriminate|].
    intros H. rewrite (IH _ H). reflexivity.
Qed.

Lemma remove_phrase_absent (phrase s : text) :
  ~ occurs_bounded phrase s -> remove_phrase phrase s = s.
Proof.
  intros H. unfold remove_phrase, Re.sub. apply sub_from_no_match.
  apply not_true_is_false. intros S. apply H, search_bounded_iff. exact S.
Qed.

Lemma fold_remove_absent (phrases : list text) (s : text) :
  (forall p, In p phrases -> ~ occurs_bounded p s) ->
  fold_left (fun r p => remove_phrase p r) phrases s = s.
Proof.
  induction phrases as [|q qs IH]; intros H; [reflexivity|].
  cbn [fold_left]. rewrite remove_phrase_absent.
  - apply IH. intros p Hp. apply H. right. exact Hp.
  - apply H. left. reflexivity.
Qed.

(** X7. When no multi-word ignore phrase occurs in the text between two
    word boundaries (so [i see] inside [i seen] does not count), the phrase
    loop leaves the text as it is, and [_is_only_ignore_words] is decided
    by the tokens of the text itself. *)
Theorem absent_phrases_leave_text (cfg : InterruptionFilterConfig) (n : text) :
  (forall p, In p (ignore_words cfg) -> In " "%char p -> ~ occurs_bounded p n) ->
  remove_phrases_loop (phrase_patterns cfg) n = Some n
  /\ (_is_only_ignore_words cfg n = Some true
      <-> Forall (fun token =>
                    clean_word token <> [] ->
                    In (clean_word token) (ignore_words cfg))
            (Py.split n)).
Proof.
  intros H.
  assert (A : after_phrases cfg n = n).
  { apply fold_remove_absent. intros p Hp.
    apply phrases_longest_first_spec in Hp. destruct Hp as [H1 H2].
    exact (H p H1 H2). }
  split.
  - rewrite remove_phrases_loop_eq, phrase_patterns_eq.
    fold (after_phrases cfg n). rewrite A. reflexivity.
  - rewrite is_only_ignore_words_eq, A, <- remaining_words_loop_iff.
    split; [intros E; injection E as E; exact E | intros ->; reflexivity].
Qed.

Lemma absent_phrases_leave_text_witness :
  remove_phrases_loop (phrase_patterns default_config) (str "i seen") = Some (str "i seen")
  /\ (_is_only_ignore_words default_config (str "i seen") = Some true
      <-> Forall (fun token =>
                    clean_word token <> [] ->
                    In (clean_word token) (ignore_words default_config))
            (Py.split (str "i seen"))).
Proof.
  apply absent_phrases_leave_text.
  intros p Hp Hs B. apply search_bounded_iff in B.
  assert (F : forallb (fun q => negb (Re.search (bounded q) (str "i seen")))
                (ignore_words default_config) = true)
    by (vm_compute; reflexivity).
  rewrite forallb_forall in F. specialize (F p Hp). rewrite B in F.
  discriminate F.
Defined.

(** ** One token *)

Lemma normalize_token (t : text) :
  t <> [] -> (forall c, In c t -> Py.isspace c = false) ->
  _normalize_text t = Py.lower t.
Proof.
  intros Hn Hs. unfold _normalize_text.
  rewrite <- (app_nil_r (Py.lower t)) at 1. rewrite split_token_app.
  - reflexivity.
  - destruct t; [contradiction | discriminate].
  - intros c Hc. apply in_map_iff in Hc. destruct Hc as [x [<- Hx]].
    rewrite isspace_lower. apply Hs, Hx.
  - discriminate.
Qed.

Lemma nonblank_token (t : text) :
  t <> [] -> (forall c, In c t -> Py.isspace c = false) -> ~ whitespace_only t.
Proof.
  intros Hn Hs W. destruct t as [|c t]; [contradiction|].
  specialize (Hs c (or_introl eq_refl)).
  rewrite (W c (or_introl eq_refl)) in Hs. discriminate Hs.
Qed.

(** X8. A one-token transcript interrupts whenever its cleaned lower-case
    form is not empty and not in the ignore set.  This holds even when the
    token itself is an ignore entry: an entry with punctuation inside, such
    as [y'all], is never recognised, because the token is compared after
    its punctuation is deleted. *)
Theorem unrecognised_token_interrupts (cfg : InterruptionFilterConfig)
  (t : text) :
  enabled cfg = true ->
  t <> [] ->
  (forall c, In c t -> Py.isspace c = false) ->
  clean_word (Py.lower t) <> [] ->
  ~ In (clean_word (Py.lower t)) (ignore_words cfg) ->
  should_interrupt cfg t true = Some true.
Proof.
  intros He Hn Hs Hc Hi. rewrite decision_closed, He.
  assert (B : Py.truthy t && Py.truthy (Py.strip t) = true).
  { apply not_false_is_true. intros B. apply blank_iff in B.
    exact (nonblank_token t Hn Hs B). }
  rewrite B, (normalize_token t Hn Hs). cbn [negb orb andb].
  assert (Hl : forall c, In c (Py.lower t) -> Py.isspace c = false).
  { intros c Hin. apply in_map_iff in Hin. destruct Hin as [x [<- Hx]].
    rewrite isspace_lower. apply Hs, Hx. }
  assert (A : after_phrases cfg (Py.lower t) = Py.lower t).
  { apply fold_remove_absent. intros p Hp [pre [post [E _]]].
    apply phrases_longest_first_spec in Hp. destruct Hp as [_ Hp].
    assert (Hin : In " "%char (Py.lower t)).
    { rewrite E. apply in_or_app. right. apply in_or_app. left. exact Hp. }
    specialize (Hl _ Hin). discriminate Hl. }
  rewrite A. rewrite <- (app_nil_r (Py.lower t)) at 2.
  rewrite split_token_app; [|destruct t; [contradiction | discriminate]
                            |exact Hl | discriminate].
  cbn [Py.split remaining_words_loop].
  apply truthy_iff in Hc. rewrite Hc.
  assert (M : Py.mem (clean_word (Py.lower t)) (ignore_words cfg) = false).
  { apply not_true_is_false. intros M. apply mem_iff in M. contradiction. }
  rewrite M. cbn [negb andb]. rewrite orb_true_r. reflexivity.
Qed.

Lemma unrecognised_token_interrupts_witness :
  should_interrupt
    {| ignore_words := [str "y'all"]; interrupt_keywords := []; enabled := true |}
    (str "y'all") true = Some true.
Proof.
  apply unrecognised_token_interrupts.
  - reflexivity.
  - discriminate.
  - intros c [<- | [<- | [<- | [<- | [<- | []]]]]]; reflexivity.
  - vm_compute. discriminate.
  - vm_compute. intros [H | []]. discriminate H.
Defined.

(** ** A transcript that is an ignore phrase *)

Lemma fold_remove_wordless (phrases : list text) (n : text) :
  (forall c, In c n -> Re.isword c = false) ->
  fold_left (fun r p => remove_phrase p r) phrases n = n.
Proof.
  intros H. induction phrases as [|p ps IH]; [reflexivity|].
  cbn [fold_left]. unfold remove_phrase at 2, Re.sub.
  rewrite sub_from_wordless; [exact IH | reflexivity | exact H].
Qed.

Lemma startswith_refl (p : text) : Py.startswith p p = true.
Proof. apply startswith_iff. exists []. symmetry. apply app_nil_r. Qed.

Lemma remove_phrase_self (p : text) :
  Re.isword_at (hd_error p) = true ->
  Re.isword_at (last_of None p) = true ->
  remove_phrase p p = str " ".
Proof.
  intros Hh Hl. destruct p as [|c w]; [discriminate Hh|].
  unfold remove_phrase, Re.sub. cbn [Re.sub_from]. rewrite match_bounded.
  rewrite skipn_all.
  unfold Re.at_boundary. rewrite Hh, Hl, startswith_refl.
  cbn [Re.isword_at hd_error xorb andb List.length].
  pose proof (sub_from_skip (bounded (c :: w)) (str " ") (Some c) w []) as K.
  rewrite app_nil_r in K. rewrite K.
  cbn [Re.sub_from]. rewrite match_bounded. cbn [Py.startswith].
  rewrite andb_false_r. reflexivity.
Qed.

Lemma longer_not_inside (q p : text) :
  List.length p <= List.length q -> q <> p -> ~ occurs_bounded q p.
Proof.
  intros Hlen Hne [pre [post [E _]]].
  assert (L : List.length p
              = List.length pre + (List.length q + List.length post)).
  { rewrite E, !length_app. reflexivity. }
  assert (Hpre : pre = []) by (destruct pre; [reflexivity | simpl in L; lia]).
  assert (Hpost : post = []) by (destruct post; [reflexivity | simpl in L; lia]).
  subst pre post. apply Hne. rewrite E, app_nil_r. reflexivity.
Qed.

Lemma fold_remove_phrase_itself (phrases : list text) (p : text) :
  StronglySorted (fun a b => List.length b <= List.length a) phrases ->
  In p phrases ->
  Re.isword_at (hd_error p) = true ->
  Re.isword_at (last_of None p) = true ->
  fold_left (fun r q => remove_phrase q r) phrases p = str " ".
Proof.
  intros Hs Hin Hh Hl. induction phrases as [|q qs IH]; [destruct Hin|].
  cbn [fold_left]. inversion Hs as [|a b Hs' Hf]; subst.
  destruct (list_eq_dec ascii_dec q p) as [-> | Hne].
  - rewrite (remove_phrase_self p Hh Hl). apply fold_remove_wordless.
    intros c [<- | []]. reflexivity.
  - destruct Hin as [E | Hin]; [contradiction|].
    rewrite remove_phrase_absent.
    + apply IH; assumption.
    + apply longer_not_inside; [|exact Hne].
      rewrite Forall_forall in Hf. apply Hf. exact Hin.
Qed.

(** X9. A transcript whose normal form is a multi-word ignore phrase that
    begins and ends with a word character is ignored, whatever the other
    ignore entries and their order, provided no interrupt keyword matches
    it: the longer and equally long phrases tried before it cannot occur in
    it, and it is removed whole. *)
Theorem ignore_phrase_is_ignored (cfg : InterruptionFilterConfig) (t p : text) :
  enabled cfg = true ->
  _normalize_text t = p ->
  In p (ignore_words cfg) ->
  In " "%char p ->
  Re.isword_at (hd_error p) = true ->
  Re.isword_at (last_of None p) = true ->
  (forall keyword, In keyword (interrupt_keywords cfg) ->
                   ~ keyword_match keyword p) ->
  should_interrupt cfg t true = Some false.
Proof.
  intros He Hn Hin Hsp Hh Hl Hk.
  assert (N : ~ whitespace_only t).
  { intros W. apply normalize_blank in W. rewrite W in Hn. subst p.
    destruct Hsp. }
  rewrite (ignore_check cfg t He N); [|rewrite Hn; exact Hk].
  rewrite Hn. unfold after_phrases.
  rewrite fold_remove_phrase_itself; [reflexivity | | | exact Hh | exact Hl].
  - apply phrases_longest_first_spec.
  - apply phrases_longest_first_spec. split; assumption.
Qed.

Lemma ignore_phrase_is_ignored_witness :
  should_interrupt default_config (str " Of   COURSE ") true = Some false.
Proof.
  apply (ignore_phrase_is_ignored default_config _ (str "of course")).
  - reflexivity.
  - reflexivity.
  - vm_compute. do 33 right. left. reflexivity.
  - vm_compute. right. right. left. reflexivity.
  - reflexivity.
  - reflexivity.
  - intros keyword Hin Hm. apply keyword_hit_iff in Hm.
    assert (F : forallb (fun k => negb (keyword_hit (str "of course") k))
                  (interrupt_keywords default_config) = true)
      by (vm_compute; reflexivity).
    rewrite forallb_forall in F. specialize (F keyword Hin).
    rewrite Hm in F. discriminate F.
Defined.

(** ** The iteration order of the sets *)

Lemma filter_perm {A : Type} (f : A -> bool) (l l' : list A) :
  Permutation l l' -> Permutation (filter f l) (filter f l').
Proof.
  intros P. induction P as [|x l l' P IH|x y l|l l' l'' P1 IH1 P2 IH2]; simpl.
  - constructor.
  - destruct (f x); [constructor; exact IH | exact IH].
  - destruct (f x), (f y); try reflexivity. apply perm_swap.
  - exact (perm_trans IH1 IH2).
Qed.

Lemma descending_strict {A : Type} (key : A -> nat) (l : list A) :
  StronglySorted (fun a b => key b <= key a) l ->
  NoDup (map key l) ->
  StronglySorted (fun a b => key b < key a) l.
Proof.
  induction l as [|x l IH]; intros Hs Hn; [constructor|].
  inversion Hs as [|a b Hs' Hf]; subst. simpl in Hn.
  inversion Hn as [|a b Hx Hn']; subst.
  constructor; [apply IH; assumption|].
  rewrite Forall_forall in *. intros y Hy. specialize (Hf y Hy).
  assert (key y <> key x); [|lia].
  intros E. apply Hx. rewrite <- E. apply in_map. exact Hy.
Qed.

Lemma strict_sorted_perm_eq {A : Type} (key : A -> nat) (l l' : list A) :
  StronglySorted (fun a b => key b < key a) l ->
  StronglySorted (fun a b => key b < key a) l' ->
  Permutation l l' ->
  l = l'.
Proof.
  revert l'. induction l as [|x l IH]; intros l' Hs Hs' P.
  - apply Permutation_nil in P. subst. reflexivity.
  - destruct l' as [|y l'].
    + apply Permutation_sym, Permutation_nil in P. discriminate P.
    + inversion Hs as [|a b Hsl Hfl]; subst.
      inversion Hs' as [|a b Hsl' Hfl']; subst.
      rewrite Forall_forall in Hfl, Hfl'.
      assert (E : x = y).
      { assert (Hx : In x (y :: l'))
          by (apply (Permutation_in _ P); left; reflexivity).
        assert (Hy : In y (x :: l))
          by (apply (Permutation_in _ (Permutation_sym P)); left; reflexivity).
        destruct Hx as [Hx | Hx]; [symmetry; exact Hx|].
        destruct Hy as [Hy | Hy]; [exact Hy|].
        specialize (Hfl y Hy). specialize (Hfl' x Hx). lia. }
      subst y. f_equal. apply IH; [assumption | assumption|].
      apply Permutation_cons_inv in P. exact P.
Qed.

Lemma sorted_reverse_perm_eq {A : Type} (key : A -> nat) (l l' : list A) :
  Permutation l l' ->
  NoDup (map key l) ->
  Py.sorted_reverse key l = Py.sorted_reverse key l'.
Proof.
  intros P N.
  assert (P1 : Permutation (Py.sorted_reverse key l) (Py.sorted_reverse key l')).
  { rewrite !sorted_reverse_perm. exact P. }
  apply (strict_sorted_perm_eq key); [| |exact P1].
  - apply descending_strict; [apply sorted_reverse_sorted|].
    apply (Permutation_NoDup (l := map key l)); [|exact N].
    apply Permutation_map, Permutation_sym, sorted_reverse_perm.
  - apply descending_strict; [apply sorted_reverse_sorted|].
    apply (Permutation_NoDup (l := map key l)); [|exact N].
    apply Permutation_map. rewrite sorted_reverse_perm. exact P.
Qed.

Lemma remaining_words_loop_same_set (ignore ignore' toks : list text) :
  (forall w, In w ignore <-> In w ignore') ->
  remaining_words_loop ignore toks = remaining_words_loop ignore' toks.
Proof.
  intros H. apply eq_true_iff_eq. rewrite !remaining_words_loop_iff.
  split; intros F; rewrite Forall_forall in *; intros tok Ht N;
    apply H, (F tok Ht N).
Qed.

Lemma existsb_same_set {A : Type} (f : A -> bool) (l l' : list A) :
  (forall x, In x l <-> In x l') -> existsb f l = existsb f l'.
Proof.
  intros H. apply eq_true_iff_eq. rewrite !existsb_exists.
  split; intros [x [Hx Hf]]; exists x; (split; [apply H; exact Hx | exact Hf]).
Qed.

(** X10. When no two multi-word ignore phrases have the same length, the
    decision does not depend on the order in which the two sets are
    iterated: two configurations with the same elements in any order give
    the same answer on every transcript. *)
Theorem iteration_order_irrelevant (cfg cfg' : InterruptionFilterConfig)
  (t : text) (agent_is_speaking : bool) :
  enabled cfg' = enabled cfg ->
  Permutation (ignore_words cfg) (ignore_words cfg') ->
  Permutation (interrupt_keywords cfg) (interrupt_keywords cfg') ->
  NoDup (map (@List.length ascii) (phrases_longest_first cfg)) ->
  should_interrupt cfg t agent_is_speaking
  = should_interrupt cfg' t agent_is_speaking.
Proof.
  intros He Pi Pk N. rewrite !decision_closed, He.
  assert (A : phrases_longest_first cfg = phrases_longest_first cfg').
  { unfold phrases_longest_first. apply sorted_reverse_perm_eq.
    - apply filter_perm. exact Pi.
    - apply (Permutation_NoDup (l := map (@List.length ascii)
                                        (phrases_longest_first cfg))); [|exact N].
      apply Permutation_map. unfold phrases_longest_first.
      apply sorted_reverse_perm. }
  unfold after_phrases. rewrite <- A.
  rewrite (remaining_words_loop_same_set (ignore_words cfg) (ignore_words cfg')).
  - rewrite (existsb_same_set _ (interrupt_keywords cfg) (interrupt_keywords cfg'));
      [reflexivity|].
    intros k. split; apply Permutation_in; [exact Pk | apply Permutation_sym, Pk].
  - intros w. split; apply Permutation_in; [exact Pi | apply Permutation_sym, Pi].
Qed.

Lemma iteration_order_irrelevant_witness :
  should_interrupt
    {| ignore_words := [str "ok"; str "i see"; str "of course"];
       interrupt_keywords := [str "stop"; str "hold on"]; enabled := true |}
    (str "of course i see") true
  = should_interrupt
      {| ignore_words := [str "of course"; str "ok"; str "i see"];
         interrupt_keywords := [str "hold on"; str "stop"]; enabled := true |}
      (str "of course i see") true.
Proof.
  apply iteration_order_irrelevant.
  - reflexivity.
  - cbn [ignore_words].
    apply (perm_trans (l' := [str "ok"; str "of course"; str "i see"]));
      [apply perm_skip, perm_swap | apply perm_swap].
  - apply perm_swap.
  - vm_compute. repeat constructor; simpl; intuition discriminate.
Defined.

(** X11. When two multi-word ignore phrases have the same length, the
    decision can depend on the iteration order of the ignore set: with the
    ignore entries [a b], [b c] and [a], the transcript [a b c] interrupts
    when [a b] is removed first (the token [c] remains) and does not when
    [b c] is removed first (the token [a] remains). *)
Theorem equal_length_phrases_depend_on_order :
  exists (ignore ignore' : list text) (t : text),
    Permutation ignore ignore'
    /\ NoDup ignore
    /\ should_interrupt
         {| ignore_words := ignore; interrupt_keywords := []; enabled := true |}
         t true = Some true
    /\ should_interrupt
         {| ignore_words := ignore'; interrupt_keywords := []; enabled := true |}
         t true = Some false.
Proof.
  exists [str "a b"; str "b c"; str "a"], [str "b c"; str "a b"; str "a"],
    (str "a b c").
  split; [apply perm_swap|].
  split; [|split; reflexivity].
  repeat constructor; simpl; intuition discriminate.
Qed.

(** ** Transcripts made of ignore words *)

Lemma first_word_split (p : text) :
  In " "%char p -> p = first_word p ++ " "%char :: after_space p.
Proof.
  induction p as [|c p IH]; intros H; [destruct H|]. simpl.
  destruct (Ascii.eqb c " ") eqn:E.
  - apply Ascii.eqb_eq in E. subst c. reflexivity.
  - destruct H as [H | H].
    + subst c. rewrite Ascii.eqb_refl in E. discriminate E.
    + simpl. f_equal. exact (IH H).
Qed.

Lemma first_word_no_space (p : text) : ~ In " "%char (first_word p).
Proof.
  induction p as [|c p IH]; simpl; [intros []|].
  destruct (Ascii.eqb c " ") eqn:E; [intros []|].
  intros [H | H]; [|exact (IH H)].
  subst c. rewrite Ascii.eqb_refl in E. discriminate E.
Qed.

Lemma first_word_prefix (b : text) : exists r, b = first_word b ++ r.
Proof.
  induction b as [|c b [r IH]]; [exists []; reflexivity|]. simpl.
  destruct (Ascii.eqb c " "); [exists (c :: b); reflexivity|].
  exists r. simpl. f_equal. exact IH.
Qed.

Lemma align_space (l1 r1 l2 r2 : text) :
  l1 ++ " "%char :: r1 = l2 ++ " "%char :: r2 ->
  ~ In " "%char l1 -> ~ In " "%char l2 ->
  l1 = l2 /\ r1 = r2.
Proof.
  revert l2. induction l1 as [|c l1 IH]; intros l2 E H1 H2.
  - destruct l2 as [|d l2].
    + injection E as E. split; [reflexivity | exact E].
    + injection E as E _. exfalso. apply H2. left. symmetry. exact E.
  - destruct l2 as [|d l2].
    + injection E as E _. exfalso. apply H1. left. exact E.
    + injection E as -> E. destruct (IH l2 E) as [-> ->].
      * intros H. apply H1. right. exact H.
      * intros H. apply H2. right. exact H.
      * split; reflexivity.
Qed.

Lemma startswith_token_space (w J a b : text) :
  ~ In " "%char a -> ~ In " "%char w ->
  Py.startswith (w ++ " "%char :: J) (a ++ " "%char :: b) = true ->
  a = w /\ Py.startswith J b = true.
Proof.
  intros Ha Hw H. apply startswith_iff in H. destruct H as [post E].
  rewrite <- app_assoc in E. cbn [app] in E.
  destruct (align_space _ _ _ _ E Hw Ha) as [-> ->].
  split; [reflexivity|]. apply startswith_iff. exists post. reflexivity.
Qed.

Lemma contains_token_space (w J a b : text) :
  ~ In " "%char a -> ~ In " "%char w ->
  Py.contains (a ++ " "%char :: b) (w ++ " "%char :: J) = true ->
  (exists pre, w = pre ++ a /\ Py.startswith J b = true)
  \/ Py.contains (a ++ " "%char :: b) J = true.
Proof.
  intros Ha. induction w as [|c w IH]; intros Hw H.
  - cbn [app Py.contains] in H. apply orb_true_iff in H.
    destruct H as [H | H]; [|right; exact H].
    destruct (startswith_token_space [] J a b Ha Hw H) as [-> S].
    left. exists []. split; [reflexivity | exact S].
  - change ((c :: w) ++ " "%char :: J) with (c :: (w ++ " "%char :: J)) in H.
    cbn [Py.contains] in H. apply orb_true_iff in H. destruct H as [H | H].
    + destruct (startswith_token_space (c :: w) J a b Ha Hw H) as [-> S].
      left. exists []. split; [reflexivity | exact S].
    + destruct IH as [[pre [E S]] | C].
      * intros I. apply Hw. right. exact I.
      * exact H.
      * left. exists (c :: pre). split; [rewrite E; reflexivity | exact S].
      * right. exact C.
Qed.

Lemma prefix_of_token (b1 x w2 tail : text) :
  b1 ++ x = w2 ++ tail ->
  ~ In " "%char b1 ->
  tail = [] \/ (exists tl, tail = " "%char :: tl) ->
  Py.startswith w2 b1 = true.
Proof.
  revert w2. induction b1 as [|c b1 IH]; intros w2 E Hb Ht; [reflexivity|].
  destruct w2 as [|d w2].
  - exfalso. destruct Ht as [-> | [tl ->]]; [discriminate E|].
    injection E as E _. apply Hb. left. exact E.
  - injection E as -> E. cbn [Py.startswith]. rewrite Ascii.eqb_refl.
    apply (IH w2 E); [|exact Ht]. intros I. apply Hb. right. exact I.
Qed.

Lemma join_cons_shape (w : text) (ws : list text) :
  exists tail,
    Py.join (str " ") (w :: ws) = w ++ tail
    /\ (tail = [] \/ exists tl, tail = " "%char :: tl).
Proof.
  destruct ws as [|w2 ws].
  - exists []. split; [symmetry; apply app_nil_r | left; reflexivity].
  - exists (" "%char :: Py.join (str " ") (w2 :: ws)).
    split; [reflexivity|]. right. eexists. reflexivity.
Qed.

Lemma contains_join (ws : list text) (p : text) :
  (forall w, In w ws -> ~ In " "%char w) ->
  In " "%char p ->
  Py.contains p (Py.join (str " ") ws) = true ->
  exists u v,
    In u ws /\ In v ws
    /\ endswith u (first_word p) = true
    /\ Py.startswith v (first_word (after_space p)) = true.
Proof.
  intros Hws Hp. induction ws as [|w ws IH]; intros C.
  - destruct p; [destruct Hp | discriminate C].
  - destruct ws as [|w2 ws].
    + exfalso. cbn [Py.join] in C. apply contains_iff in C.
      destruct C as [pre [post E]]. apply (Hws w (or_introl eq_refl)).
      rewrite E. apply in_or_app. right. apply in_or_app. left. exact Hp.
    + change (Py.join (str " ") (w :: w2 :: ws))
        with (w ++ " "%char :: Py.join (str " ") (w2 :: ws)) in C.
      rewrite (first_word_split p Hp) in C.
      apply contains_token_space in C;
        [|apply first_word_no_space | apply Hws; left; reflexivity].
      destruct C as [[pre [E S]] | C].
      * exists w, w2. split; [left; reflexivity|].
        split; [right; left; reflexivity|]. split.
        -- unfold endswith. apply startswith_iff. exists (rev pre).
           rewrite E. apply rev_app_distr.
        -- apply startswith_iff in S. destruct S as [post S].
           destruct (join_cons_shape w2 ws) as [tail [J Ht]].
           destruct (first_word_prefix (after_space p)) as [r R].
           rewrite J, R, <- app_assoc in S. symmetry in S.
           exact (prefix_of_token _ _ _ _ S (first_word_no_space _) Ht).
      * rewrite <- (first_word_split p Hp) in C.
        destruct IH as [u [v [Hu [Hv HH]]]].
        -- intros x Hx. apply Hws. right. exact Hx.
        -- exact C.
        -- exists u, v. split; [right; exact Hu|].
           split; [right; exact Hv | exact HH].
Qed.

Lemma startswith_token (w J k : text) :
  ~ In " "%char k ->
  Py.startswith (w ++ " "%char :: J) k = Py.startswith w k.
Proof.
  revert w. induction k as [|c k IH]; intros w Hk; [reflexivity|].
  destruct w as [|d w]; cbn [app Py.startswith].
  - destruct (Ascii.eqb c " ") eqn:E; [|reflexivity].
    apply Ascii.eqb_eq in E. exfalso. apply Hk. left. exact E.
  - rewrite IH; [reflexivity|]. intros I. apply Hk. right. exact I.
Qed.

Lemma isword_hd_app (w J : text) :
  Re.isword_at (hd_error (w ++ " "%char :: J)) = Re.isword_at (hd_error w).
Proof. destruct w; reflexivity. Qed.

Lemma startswith_length (w k : text) :
  Py.startswith w k = true -> List.length k <= List.length w.
Proof.
  intros H. apply startswith_iff in H. destruct H as [post ->].
  rewrite length_app. lia.
Qed.

Lemma match_token (k : text) (prev : option ascii) (w J : text) :
  ~ In " "%char k ->
  Re.match_here (bounded k) prev (w ++ " "%char :: J)
  = Re.match_here (bounded k) prev w.
Proof.
  intros Hk. rewrite !match_bounded, (startswith_token w J k Hk).
  unfold Re.at_boundary. rewrite isword_hd_app.
  destruct (Py.startswith w k) eqn:S; [|rewrite !andb_false_r; reflexivity].
  apply startswith_length in S. rewrite skipn_app.
  replace (List.length k - List.length w) with 0 by lia.
  cbn [skipn]. rewrite isword_hd_app. reflexivity.
Qed.

Lemma search_prev_irrelevant (k : text) (prev prev' : option ascii) (s : text) :
  k <> [] -> Re.isword_at prev = Re.isword_at prev' ->
  Re.search_from (bounded k) prev s = Re.search_from (bounded k) prev' s.
Proof.
  intros Hk Hp. destruct k as [|c k]; [contradiction|].
  assert (M : Re.match_here (bounded (c :: k)) prev s
              = Re.match_here (bounded (c :: k)) prev' s).
  { rewrite !match_bounded. unfold Re.at_boundary. rewrite Hp. reflexivity. }
  destruct s; cbn [Re.search_from]; rewrite M; reflexivity.
Qed.

Lemma search_token (k : text) (prev : option ascii) (w J : text) :
  ~ In " "%char k -> k <> [] ->
  Re.search_from (bounded k) prev (w ++ " "%char :: J)
  = Re.search_from (bounded k) prev w || Re.search_from (bounded k) None J.
Proof.
  intros Hs Hk. revert prev. induction w as [|c w IH]; intros prev.
  - pose proof (match_token k prev [] J Hs) as M0. cbn [app] in M0.
    cbn [app Re.search_from]. rewrite M0.
    destruct (Re.match_here (bounded k) prev []) eqn:M.
    + rewrite match_bounded in M. destruct k; [contradiction|].
      cbn [Py.startswith] in M. rewrite andb_false_r in M. discriminate M.
    + cbn [orb]. apply search_prev_irrelevant; [exact Hk | reflexivity].
  - pose proof (match_token k prev (c :: w) J Hs) as M1. cbn [app] in M1.
    cbn [app Re.search_from]. rewrite M1.
    destruct (Re.match_here (bounded k) prev (c :: w)); [reflexivity|].
    apply IH.
Qed.

Lemma search_join (k : text) (ws : list text) :
  ~ In " "%char k -> k <> [] ->
  Re.search (bounded k) (Py.join (str " ") ws)
  = existsb (Re.search (bounded k)) ws.
Proof.
  intros Hs Hk. induction ws as [|w ws IH].
  - unfold Re.search. cbn [Py.join Re.search_from existsb].
    rewrite match_bounded. destruct k; [contradiction|].
    cbn [Py.startswith]. rewrite andb_false_r. reflexivity.
  - destruct ws as [|w2 ws].
    + cbn [Py.join existsb]. rewrite orb_false_r. reflexivity.
    + change (Py.join (str " ") (w :: w2 :: ws))
        with (w ++ " "%char :: Py.join (str " ") (w2 :: ws)).
      unfold Re.search in *. rewrite (search_token k None w _ Hs Hk), IH.
      reflexivity.
Qed.

Lemma only_ignore_tokens (cfg : InterruptionFilterConfig) (t : text) :
  enabled cfg = true ->
  ~ whitespace_only t ->
  (forall k, In k (interrupt_keywords cfg) -> ~ In " "%char k ->
     k <> [] /\ forall u, In u (ignore_words cfg) ->
                          Re.search (bounded k) u = false) ->
  (forall p, In p (interrupt_keywords cfg) \/ In p (ignore_words cfg) ->
     In " "%char p ->
     forall u v, In u (ignore_words cfg) -> In v (ignore_words cfg) ->
       endswith u (first_word p)
       && Py.startswith v (first_word (after_space p)) = false) ->
  (forall w, In w (ignore_words cfg) -> ~ In " "%char w ->
     clean_word w = [] \/ In (clean_word w) (ignore_words cfg)) ->
  Forall (fun w => In w (ignore_words cfg)) (Py.split (Py.lower t)) ->
  should_interrupt cfg t true = Some false.
Proof.
  intros He Hn H1 H2 H3 Hall. rewrite Forall_forall in Hall.
  assert (Tok : forall w, In w (Py.split (Py.lower t)) -> ~ In " "%char w).
  { intros w Hw I. destruct (normalize_tokens t w Hw) as [_ Hs].
    specialize (Hs _ I). discriminate Hs. }
  assert (NoC : forall p,
             In p (interrupt_keywords cfg) \/ In p (ignore_words cfg) ->
             In " "%char p -> Py.contains p (_normalize_text t) = false).
  { intros p Hp Hsp. apply not_true_is_false. intros C.
    destruct (contains_join _ p Tok Hsp C) as [u [v [Hu [Hv [E S]]]]].
    pose proof (H2 p Hp Hsp u v (Hall u Hu) (Hall v Hv)) as F.
    rewrite E, S in F. discriminate F. }
  rewrite (ignore_check cfg t He Hn).
  - assert (A : after_phrases cfg (_normalize_text t) = _normalize_text t).
    { apply fold_remove_absent. intros p Hp [pre [post [E _]]].
      apply phrases_longest_first_spec in Hp. destruct Hp as [Hp Hsp].
      assert (C : Py.contains p (_normalize_text t) = true).
      { apply contains_iff. exists pre, post. exact E. }
      rewrite (NoC p (or_intror Hp) Hsp) in C. discriminate C. }
    rewrite A, split_normalize.
    assert (L : remaining_words_loop (ignore_words cfg) (Py.split (Py.lower t))
                = true).
    { apply remaining_words_loop_iff, Forall_forall. intros tok Ht N.
      destruct (H3 tok (Hall tok Ht) (Tok tok Ht)) as [E | I];
        [contradiction | exact I]. }
    rewrite L. reflexivity.
  - intros k Hk Hm. apply keyword_hit_iff in Hm. unfold keyword_hit in Hm.
    destruct (Py.contains (str " ") k) eqn:Sp.
    + apply contains_space_iff in Sp.
      rewrite (NoC k (or_introl Hk) Sp) in Hm. discriminate Hm.
    + assert (Ns : ~ In " "%char k).
      { intros I. apply contains_space_iff in I. rewrite I in Sp.
        discriminate Sp. }
      destruct (H1 k Hk Ns) as [Hne Hu].
      unfold _normalize_text in Hm. rewrite (search_join k _ Ns Hne) in Hm.
      apply existsb_exists in Hm. destruct Hm as [u [Hin Hs]].
      rewrite (Hu u (Hall u Hin)) in Hs. discriminate Hs.
Qed.

(** X12. Under the default configuration (whatever the iteration order of
    its sets), with the filter on and the agent speaking, a non-blank
    transcript all of whose whitespace-separated tokens are, in lower case,
    default ignore words never interrupts: no default keyword matches
    inside or across such tokens, and no default phrase occurs. *)
Theorem filler_words_never_interrupt (cfg : InterruptionFilterConfig)
  (t : text) :
  enabled cfg = true ->
  Permutation (ignore_words cfg) DEFAULT_IGNORE_WORDS ->
  Permutation (interrupt_keywords cfg) DEFAULT_INTERRUPT_KEYWORDS ->
  ~ whitespace_only t ->
  Forall (fun w => In w DEFAULT_IGNORE_WORDS) (Py.split (Py.lower t)) ->
  should_interrupt cfg t true = Some false.
Proof.
  intros He Pi Pk Hn Hall.
  assert (Ii : forall w, In w (ignore_words cfg) <-> In w DEFAULT_IGNORE_WORDS).
  { intros w. split; apply Permutation_in;
      [exact Pi | apply Permutation_sym, Pi]. }
  assert (Ik : forall w, In w (interrupt_keywords cfg)
                         -> In w DEFAULT_INTERRUPT_KEYWORDS).
  { intros w. apply Permutation_in. exact Pk. }
  apply only_ignore_tokens; [exact He | exact Hn | | | |].
  - intros k Hk Ns.
    assert (F : forallb
                  (fun k => (if in_dec ascii_dec " "%char k then true else false)
                            || negb (Py.eqb k [])
                               && forallb (fun u => negb (Re.search (bounded k) u))
                                    DEFAULT_IGNORE_WORDS)
                  DEFAULT_INTERRUPT_KEYWORDS = true)
      by (vm_compute; reflexivity).
    rewrite forallb_forall in F. specialize (F k (Ik k Hk)).
    destruct (in_dec ascii_dec " "%char k) as [I | _]; [contradiction|].
    cbn [orb] in F. apply andb_true_iff in F. destruct F as [F1 F2]. split.
    + intros ->. discriminate F1.
    + intros u Hu. rewrite forallb_forall in F2.
      apply negb_true_iff, F2, Ii, Hu.
  - intros p Hp Hsp u v Hu Hv.
    assert (F : forallb
                  (fun p => negb (if in_dec ascii_dec " "%char p then true else false)
                            || forallb
                                 (fun u =>
                                    forallb
                                      (fun v =>
                                         negb (endswith u (first_word p)
                                               && Py.startswith v
                                                    (first_word (after_space p))))
                                      DEFAULT_IGNORE_WORDS)
                                 DEFAULT_IGNORE_WORDS)
                  (DEFAULT_INTERRUPT_KEYWORDS ++ DEFAULT_IGNORE_WORDS) = true)
      by (vm_compute; reflexivity).
    rewrite forallb_forall in F.
    assert (Hp' : In p (DEFAULT_INTERRUPT_KEYWORDS ++ DEFAULT_IGNORE_WORDS)).
    { apply in_or_app. destruct Hp as [Hp | Hp];
        [left; apply Ik, Hp | right; apply Ii, Hp]. }
    specialize (F p Hp').
    destruct (in_dec ascii_dec " "%char p) as [_ | N]; [|contradiction].
    cbn [negb orb] in F. rewrite forallb_forall in F.
    specialize (F u (proj1 (Ii u) Hu)). rewrite forallb_forall in F.
    apply negb_true_iff, F, Ii, Hv.
  - intros w Hw Ns.
    assert (F : forallb
                  (fun w => negb (Py.truthy (clean_word w))
                            || Py.mem (clean_word w) DEFAULT_IGNORE_WORDS)
                  DEFAULT_IGNORE_WORDS = true)
      by (vm_compute; reflexivity).
    rewrite forallb_forall in F. specialize (F w (proj1 (Ii w) Hw)).
    apply orb_true_iff in F. destruct F as [F | F].
    + left. apply negb_true_iff in F. destruct (clean_word w);
        [reflexivity | discriminate F].
    + right. apply Ii, mem_iff. exact F.
  - rewrite Forall_forall in *. intros w Hw. apply Ii, Hall, Hw.
Qed.

Lemma filler_words_never_interrupt_witness :
  should_interrupt default_config (str " Uh-Huh   OKAY mm-hmm yeah ") true
  = Some false.
Proof.
  apply filler_words_never_interrupt.
  - reflexivity.
  - apply Permutation_refl.
  - apply Permutation_refl.
  - intros W. specialize (W "U"%char). 
    assert (E : Py.isspace "U" = true) by (apply W; right; left; reflexivity).
    discriminate E.
  - vm_compute.
    repeat (apply Forall_cons;
            [repeat (first [left; reflexivity | right])|]).
    apply Forall_nil.
Defined.

(** ** Single-word keywords, token by token *)

(** X13. A keyword without a space (and not empty) matches the normalized
    transcript exactly when it occurs between word boundaries in one of the
    transcript's lower-cased tokens: such a keyword is never found across a
    space, and the neighbouring tokens play no part. *)
Theorem single_word_keyword_per_token (keyword t : text) :
  keyword <> [] ->
  ~ In " "%char keyword ->
  (keyword_match keyword (_normalize_text t)
   <-> exists token,
         In token (Py.split (Py.lower t)) /\ occurs_bounded keyword token).
Proof.
  intros Hne Hs. rewrite <- keyword_hit_iff. unfold keyword_hit.
  assert (Sp : Py.contains (str " ") keyword = false).
  { apply not_true_is_false. intros C. apply contains_space_iff in C.
    contradiction. }
  rewrite Sp. unfold _normalize_text. rewrite (search_join keyword _ Hs Hne).
  rewrite existsb_exists. split; intros [tok [Ht Hm]]; exists tok;
    (split; [exact Ht | apply search_bounded_iff; exact Hm]).
Qed.

Lemma single_word_keyword_per_token_witness :
  keyword_match (str "no") (_normalize_text (str "Oh NO, stop"))
  <-> exists token,
        In token (Py.split (Py.lower (str "Oh NO, stop")))
        /\ occurs_bounded (str "no") token.
Proof.
  apply single_word_keyword_per_token.
  - discriminate.
  - intros [H | [H | []]]; discriminate H.
Defined.

(** ** Keywords that can never match *)

Lemma keyword_match_occurs (keyword n : text) :
  keyword_match keyword n -> occurs keyword n.
Proof.
  intros [H1 H2]. destruct (in_dec ascii_dec " "%char keyword) as [I | N].
  - exact (H1 I).
  - destruct (H2 N) as [pre [post [E _]]]. exists pre, post. exact E.
Qed.

(** X14. The keywords are compared as they are written with the normalized
    transcript: a keyword that matches some transcript is lower-case, has
    the single space as its only whitespace and holds no two spaces in a
    row.  A keyword written [Stop], or with a tab or a double space inside,
    never fires. *)
Theorem matching_keyword_is_normal (keyword t : text) :
  keyword_match keyword (_normalize_text t) ->
  Py.lower keyword = keyword
  /\ (forall c, In c keyword -> Py.isspace c = true -> c = " "%char)
  /\ Py.contains (str "  ") keyword = false.
Proof.
  intros H. apply keyword_match_occurs in H. destruct H as [pre [post E]].
  assert (Sub : forall c, In c keyword -> In c (_normalize_text t)).
  { intros c Hc. rewrite E. apply in_or_app. right. apply in_or_app. left.
    exact Hc. }
  split; [|split].
  - apply lower_fixed. intros c Hc. apply Sub, in_normalize in Hc.
    destruct Hc as [-> | [x [_ ->]]]; [reflexivity | apply lower_char_idem].
  - intros c Hc Hs. apply Sub, in_join in Hc.
    destruct Hc as [[<- | []] | [tok [Ht Hc]]]; [reflexivity|].
    destruct (normalize_tokens t tok Ht) as [_ Hall].
    rewrite (Hall c Hc) in Hs. discriminate Hs.
  - apply not_true_is_false. intros C. apply contains_iff in C.
    destruct C as [a [b K]].
    assert (C' : Py.contains (str "  ") (_normalize_text t) = true).
    { apply contains_iff. exists (pre ++ a), (b ++ post).
      rewrite E, K, <- !app_assoc. reflexivity. }
    unfold _normalize_text in C'.
    rewrite (join_single_spaces _ (normalize_tokens t)) in C'. discriminate C'.
Qed.

Lemma matching_keyword_is_normal_witness :
  Py.lower (str "hold on") = str "hold on"
  /\ (forall c, In c (str "hold on") -> Py.isspace c = true -> c = " "%char)
  /\ Py.contains (str "  ") (str "hold on") = false.
Proof.
  apply (matching_keyword_is_normal (str "hold on") (str "Hold   ON please")).
  apply keyword_hit_iff. reflexivity.
Defined.
